(** * Live preview panel: the data synchronisation and frame swap engine

    A shallow embedding of [client/src/entrypoints/admin/preview-panel.js]
    (function [initPreview] and the handlers it installs) together with the
    browser interfaces the handlers call: [FormData], [URLSearchParams],
    [URL], element attributes, [classList], [fetch] promises and [load]
    events.  Handlers become functions on an explicit panel state; the
    asynchronous parts (a settled request, a finished surface load, a timer
    tick, a user action) become events delivered to that state.

    Conventions of the model:
    - a string is the sequence of its UTF-8 bytes;
    - scroll offsets are only copied, never computed with, and are integers;
    - the [src] of a surface and the [href] of the new-tab button are read
      as the browser returns them, absolute and serialised; [new URL] is
      modelled for such strings and fails on a string without a scheme;
    - calls that leave the page ([fetch], [alert], [window.open], ...) are
      recorded, in order, in the [effects] of the state;
    - each call of [setPreviewData] gets a number; the request it sends and
      the surface its answer creates are known under that number until the
      request is settled and the surface has loaded. *)

From stdpp Require Import gmap strings list fin_maps.
From Stdlib Require Import Ascii ZArith NArith Lia.
From Equations Require Equations.

Local Open Scope stdpp_scope.

(* ===================================================================== *)
(** ** The [application/x-www-form-urlencoded] format

    [new URLSearchParams(x).toString()] and the query component of a [URL]
    both use this format.  A JavaScript scalar-value string is modelled by
    its UTF-8 bytes, a Rocq [string]; the serialiser works on those bytes. *)
(* ===================================================================== *)

Module Urlencoded.
Local Open Scope char_scope.

(** Bytes the serialiser leaves as they are: ASCII alphanumerics and
    [* - . _]. *)
Definition unreserved (a : ascii) : bool :=
  let n := N_of_ascii a in
  ((48 <=? n) && (n <=? 57) || (65 <=? n) && (n <=? 90)
   || (97 <=? n) && (n <=? 122)
   || (n =? 42) || (n =? 45) || (n =? 46) || (n =? 95))%N.

(** Hexadecimal digits: upper case is written, both cases are read. *)
Definition hex_digit (n : N) : ascii :=
  ascii_of_N (if n <? 10 then 48 + n else 55 + n)%N.

Definition unhex (c : ascii) : option N :=
  let n := N_of_ascii c in
  if ((48 <=? n) && (n <=? 57))%N then Some (n - 48)%N
  else if ((65 <=? n) && (n <=? 70))%N then Some (n - 55)%N
  else if ((97 <=? n) && (n <=? 102))%N then Some (n - 87)%N
  else None.

(** Percent-encoding of one byte with the urlencoded encode set, a space
    becoming [+]. *)
Definition encode_byte (a : ascii) (rest : string) : string :=
  if unreserved a then String a rest
  else if Ascii.eqb a " " then String "+" rest
  else let n := N_of_ascii a in
       String "%" (String (hex_digit (n / 16)) (String (hex_digit (n mod 16)) rest)).

Fixpoint encode (s : string) : string :=
  match s with
  | EmptyString => EmptyString
  | String a t => encode_byte a (encode t)
  end.

(** The parser's decoding of a name or value: [+] is a space, [%XY] with
    two hexadecimal digits is the byte, anything else stands for itself. *)
Fixpoint decode (s : string) : string :=
  match s with
  | EmptyString => EmptyString
  | String a t =>
      if Ascii.eqb a "%" then
        match t with
        | String h (String l r) =>
            match unhex h, unhex l with
            | Some x, Some y => String (ascii_of_N (16 * x + y)) (decode r)
            | _, _ => String a (decode t)
            end
        | _ => String a (decode t)
        end
      else String (if Ascii.eqb a "+" then " " else a) (decode t)
  end.

Fixpoint contains (c : ascii) (s : string) : bool :=
  match s with
  | EmptyString => false
  | String a t => Ascii.eqb a c || contains c t
  end.

(** [split_at c s]: the part of [s] before the first [c], and the part
    after it when there is one. *)
Fixpoint split_at (c : ascii) (s : string) : string * option string :=
  match s with
  | EmptyString => (EmptyString, None)
  | String a t =>
      if Ascii.eqb a c then (EmptyString, Some t)
      else let '(x, y) := split_at c t in (String a x, y)
  end.

(** [split_on c s]: the pieces of [s] between the occurrences of [c]. *)
Fixpoint split_on (c : ascii) (s : string) : list string :=
  match s with
  | EmptyString => [EmptyString]
  | String a t =>
      if Ascii.eqb a c then EmptyString :: split_on c t
      else match split_on c t with
           | x :: l => String a x :: l
           | [] => [String a EmptyString]
           end
  end.

(** The four bytes that structure a URL's query. *)
Definition delimiter (c : ascii) : Prop :=
  c = "&" ∨ c = "=" ∨ c = "#" ∨ c = "?".

Definition serialize_pair (p : string * string) : string :=
  encode p.1 +:+ String "=" (encode p.2).

(** The serialiser: [name=value] tuples joined by [&]. *)
Fixpoint serialize (l : list (string * string)) : string :=
  match l with
  | [] => EmptyString
  | [p] => serialize_pair p
  | p :: l' => serialize_pair p +:+ String "&" (serialize l')
  end.

Definition parse_pair (seq : string) : string * string :=
  let '(n, v) := split_at "=" seq in (decode n, decode (default EmptyString v)).

(** The parser: split on [&], drop empty pieces, split each piece on its
    first [=], decode. *)
Definition parse (s : string) : list (string * string) :=
  parse_pair <$> filter (λ seq, seq ≠ EmptyString) (split_on "&" s).

End Urlencoded.

(* ===================================================================== *)
(** ** Browser interfaces used by the panel *)
(* ===================================================================== *)

(** [URLSearchParams]: an ordered list of name-value tuples. *)
Module URLSearchParams.

Fixpoint get (name : string) (l : list (string * string)) : option string :=
  match l with
  | [] => None
  | (k, v) :: l' => if decide (k = name) then Some v else get name l'
  end.

Definition has (name : string) (l : list (string * string)) : bool :=
  bool_decide (is_Some (get name l)).

(** [delete(name)] removes every tuple called [name]. *)
Definition delete (name : string) (l : list (string * string))
  : list (string * string) :=
  filter (λ p, p.1 ≠ name) l.

(** [set(name, value)] overwrites the first tuple called [name] and removes
    the others, or appends a new tuple when there is none. *)
Fixpoint set (name value : string) (l : list (string * string))
  : list (string * string) :=
  match l with
  | [] => [(name, value)]
  | (k, v) :: l' =>
      if decide (k = name) then (name, value) :: delete name l'
      else (k, v) :: set name value l'
  end.

Definition toString (l : list (string * string)) : string :=
  Urlencoded.serialize l.

End URLSearchParams.

(** [FormData]: the entry list of a form.  An entry's value is a string or
    a [File] (a file input contributes one [File] per selected file). *)
Inductive FormDataEntryValue :=
| Text (value : string)
| File (name : string) (content : string).

#[export] Instance FormDataEntryValue_eq_dec : EqDecision FormDataEntryValue.
Proof. solve_decision. Defined.

(** [new URLSearchParams(formData)] reads the entries as pairs of strings:
    a string stays, any other object is converted by [toString], which
    for every [File] is the same text. *)
Definition entry_string (v : FormDataEntryValue) : string :=
  match v with
  | Text s => s
  | File _ _ => "[object File]"
  end.

Definition URLSearchParams_of_FormData
    (d : list (string * FormDataEntryValue)) : list (string * string) :=
  (λ e, (e.1, entry_string e.2)) <$> d.

(** [URL]: the part up to the path, the query, the fragment, and the
    [searchParams] list that the object keeps in step with the query. *)
Module URL.
Local Open Scope char_scope.

Record t := mk {
  prefix : string;
  query : option string;
  fragment : option string;
  searchParams : list (string * string)
}.

Definition is_alpha (a : ascii) : bool :=
  let n := N_of_ascii a in
  ((65 <=? n) && (n <=? 90) || (97 <=? n) && (n <=? 122))%N.

Definition is_scheme_char (a : ascii) : bool :=
  let n := N_of_ascii a in
  (is_alpha a || (48 <=? n) && (n <=? 57)
   || (n =? 43) || (n =? 45) || (n =? 46))%N.

Fixpoint scheme_rest (s : string) : bool :=
  match s with
  | EmptyString => false
  | String a t =>
      if Ascii.eqb a ":" then true
      else if is_scheme_char a then scheme_rest t else false
  end.

(** Without a base URL a string only parses when it starts with a scheme. *)
Definition has_scheme (s : string) : bool :=
  match s with
  | EmptyString => false
  | String a t => is_alpha a && scheme_rest t
  end.

(** [new URL(s)] for an absolute, already normalised [s] (what the [src]
    and [href] getters return): [None] is the [TypeError] of a string
    that is not an absolute URL. *)
Definition parse (s : string) : option t :=
  if has_scheme s then
    let '(s1, frag) := Urlencoded.split_at "#" s in
    let '(pre, q) := Urlencoded.split_at "?" s1 in
    Some {| prefix := pre; query := q; fragment := frag;
            searchParams := Urlencoded.parse (default EmptyString q) |}
  else None.

Definition toString (u : t) : string :=
  prefix u
  +:+ match query u with Some q => String "?" q | None => EmptyString end
  +:+ match fragment u with Some f => String "#" f | None => EmptyString end.

(** Every change of [searchParams] rewrites the query: the serialised list,
    or no query at all when the list is empty. *)
Definition update (l : list (string * string)) (u : t) : t :=
  {| prefix := prefix u;
     query := match l with [] => None | _ => Some (Urlencoded.serialize l) end;
     fragment := fragment u;
     searchParams := l |}.

(** What [parse] returns: a scheme in front, no [?] or [#] before the
    query, no [#] in the query, and the tuple list of the query. *)
Definition normal (u : t) : Prop :=
  has_scheme (prefix u) = true
  ∧ Urlencoded.contains "?" (prefix u) = false
  ∧ Urlencoded.contains "#" (prefix u) = false
  ∧ Urlencoded.contains "#" (default EmptyString (query u)) = false
  ∧ searchParams u = Urlencoded.parse (default EmptyString (query u)).

Definition searchParams_set (name value : string) (u : t) : t :=
  update (URLSearchParams.set name value (searchParams u)) u.

Definition searchParams_delete (name : string) (u : t) : t :=
  update (URLSearchParams.delete name (searchParams u)) u.

End URL.

(** The content window of a frame, as far as the panel looks at it: how
    far its document is scrolled. *)
Record Window := { scrollX : Z; scrollY : Z }.

(** The argument of [window.scroll(options)]. *)
Record ScrollToOptions := { top : Z; left : Z }.

(** An [iframe] element: its attribute map ([src] and [style] included)
    and its content window, [None] when the element has none. *)
Record Iframe := {
  attributes : gmap string string;
  contentWindow : option Window
}.

Module Element.

Definition getAttribute (name : string) (el : Iframe) : option string :=
  attributes el !! name.

Definition setAttribute (name value : string) (el : Iframe) : Iframe :=
  {| attributes := <[name := value]> (attributes el);
     contentWindow := contentWindow el |}.

(** The [src] property reflects the attribute. *)
Definition src (el : Iframe) : string :=
  default EmptyString (getAttribute "src" el).

Definition set_src (value : string) (el : Iframe) : Iframe :=
  setAttribute "src" value el.

(** [el.style = null] forwards to [el.style.cssText], which empties the
    inline declarations; the [style] attribute then holds the empty text. *)
Definition clear_style (el : Iframe) : Iframe :=
  setAttribute "style" EmptyString el.

(** [el.contentWindow.scroll(options)]; [None] when there is no window to
    call it on. *)
Definition scroll (o : ScrollToOptions) (el : Iframe) : option Iframe :=
  match contentWindow el with
  | Some _ =>
      Some {| attributes := attributes el;
              contentWindow := Some {| scrollX := left o; scrollY := top o |} |}
  | None => None
  end.

End Element.

Module classList.

Definition add (name : string) (cl : gset string) : gset string :=
  {[name]} ∪ cl.

Definition remove (name : string) (cl : gset string) : gset string :=
  cl ∖ {[name]}.

Definition toggle (name : string) (force : bool) (cl : gset string)
  : gset string :=
  if force then add name cl else remove name cl.

End classList.

(* ===================================================================== *)
(** ** The panel state *)
(* ===================================================================== *)

(** The body of the rendering endpoint's answer. *)
Record Verdict := { is_valid : bool; is_available : bool }.

(** How the chain [fetch(...).then(response => response.json())] ends:
    with the decoded body, or rejected (transport failure, or a body that
    does not decode). *)
Inductive Response :=
| Decoded (data : Verdict)
| Failed.

(** What the caller of [setPreviewData] chained on the promise it got. *)
Inductive Continuation :=
| Ignored          (* [initPreview] and the interval callback: nothing *)
| Alerting         (* [handlePreview()] in [handlePreviewModeChange] *)
| AlertingThenTab. (* [handlePreview().then(...)] in [handlePreviewInNewTab] *)

(** Calls that leave the page, in the order they are made. *)
Inductive Effect :=
| Fetch (url : string) (body : list (string * FormDataEntryValue))
| Alert (message : string)
| PreventDefault
| WindowOpen (url : string) (target : string)
| PreviewWindowFocus
| PreviewWindowNavigate (url : string)
| WindowFocus
| PreviewWindowClose.

#[export] Instance Effect_eq_dec : EqDecision Effect.
Proof. solve_decision. Defined.

Record State := mkState {
  (* constants read once by [initPreview] *)
  previewUrl : string;
  autoUpdate : bool;
  (* the page *)
  panel_classList : gset string;
  spinner_classList : gset string;
  newTabButton_href : string;
  form : list (string * FormDataEntryValue);
  (* variables of the closure *)
  iframeLastScroll : ScrollToOptions;
  iframe : Iframe;
  hasPendingUpdate : bool;
  oldData : list (string * FormDataEntryValue);
  (* asynchronous work under way: requests whose promise has not settled,
     and new surfaces that are in the document with [handleLoad] attached,
     each under the number of the request that created it *)
  requests : gmap nat Continuation;
  loading : gmap nat Iframe;
  next_id : nat;
  (* calls made so far, oldest first *)
  effects : list Effect
}.

Definition set_panel_classList (x : gset string) (s : State) : State :=
  mkState (previewUrl s) (autoUpdate s) x (spinner_classList s)
    (newTabButton_href s) (form s) (iframeLastScroll s) (iframe s)
    (hasPendingUpdate s) (oldData s) (requests s) (loading s) (next_id s)
    (effects s).

Definition set_spinner_classList (x : gset string) (s : State) : State :=
  mkState (previewUrl s) (autoUpdate s) (panel_classList s) x
    (newTabButton_href s) (form s) (iframeLastScroll s) (iframe s)
    (hasPendingUpdate s) (oldData s) (requests s) (loading s) (next_id s)
    (effects s).

Definition set_newTabButton_href (x : string) (s : State) : State :=
  mkState (previewUrl s) (autoUpdate s) (panel_classList s)
    (spinner_classList s) x (form s) (iframeLastScroll s) (iframe s)
    (hasPendingUpdate s) (oldData s) (requests s) (loading s) (next_id s)
    (effects s).

Definition set_form (x : list (string * FormDataEntryValue)) (s : State)
  : State :=
  mkState (previewUrl s) (autoUpdate s) (panel_classList s)
    (spinner_classList s) (newTabButton_href s) x (iframeLastScroll s)
    (iframe s) (hasPendingUpdate s) (oldData s) (requests s) (loading s)
    (next_id s) (effects s).

Definition set_iframeLastScroll (x : ScrollToOptions) (s : State) : State :=
  mkState (previewUrl s) (autoUpdate s) (panel_classList s)
    (spinner_classList s) (newTabButton_href s) (form s) x (iframe s)
    (hasPendingUpdate s) (oldData s) (requests s) (loading s) (next_id s)
    (effects s).

Definition set_iframe (x : Iframe) (s : State) : State :=
  mkState (previewUrl s) (autoUpdate s) (panel_classList s)
    (spinner_classList s) (newTabButton_href s) (form s)
    (iframeLastScroll s) x (hasPendingUpdate s) (oldData s) (requests s)
    (loading s) (next_id s) (effects s).

Definition set_hasPendingUpdate (x : bool) (s : State) : State :=
  mkState (previewUrl s) (autoUpdate s) (panel_classList s)
    (spinner_classList s) (newTabButton_href s) (form s)
    (iframeLastScroll s) (iframe s) x (oldData s) (requests s) (loading s)
    (next_id s) (effects s).

Definition set_oldData (x : list (string * FormDataEntryValue)) (s : State)
  : State :=
  mkState (previewUrl s) (autoUpdate s) (panel_classList s)
    (spinner_classList s) (newTabButton_href s) (form s)
    (iframeLastScroll s) (iframe s) (hasPendingUpdate s) x (requests s)
    (loading s) (next_id s) (effects s).

Definition set_requests (x : gmap nat Continuation) (s : State) : State :=
  mkState (previewUrl s) (autoUpdate s) (panel_classList s)
    (spinner_classList s) (newTabButton_href s) (form s)
    (iframeLastScroll s) (iframe s) (hasPendingUpdate s) (oldData s) x
    (loading s) (next_id s) (effects s).

Definition set_loading (x : gmap nat Iframe) (s : State) : State :=
  mkState (previewUrl s) (autoUpdate s) (panel_classList s)
    (spinner_classList s) (newTabButton_href s) (form s)
    (iframeLastScroll s) (iframe s) (hasPendingUpdate s) (oldData s)
    (requests s) x (next_id s) (effects s).

Definition set_next_id (x : nat) (s : State) : State :=
  mkState (previewUrl s) (autoUpdate s) (panel_classList s)
    (spinner_classList s) (newTabButton_href s) (form s)
    (iframeLastScroll s) (iframe s) (hasPendingUpdate s) (oldData s)
    (requests s) (loading s) x (effects s).

(** Record one more call. *)
Definition emit (e : Effect) (s : State) : State :=
  mkState (previewUrl s) (autoUpdate s) (panel_classList s)
    (spinner_classList s) (newTabButton_href s) (form s)
    (iframeLastScroll s) (iframe s) (hasPendingUpdate s) (oldData s)
    (requests s) (loading s) (next_id s) (effects s ++ [e]).

(* ===================================================================== *)
(** ** The handlers of [initPreview] *)
(* ===================================================================== *)

(** [updateIframeLastScroll]: remember where the displayed surface is
    scrolled to, unless it has no content window. *)
Definition updateIframeLastScroll (s : State) : State :=
  match contentWindow (iframe s) with
  | None => s
  | Some w =>
      set_iframeLastScroll {| top := scrollY w; left := scrollX w |} s
  end.

(** The inline style [reloadIframe] gives the new surface: zero width and
    height, transparent, absolutely positioned. *)
Definition hidden_style : string :=
  "width: 0px; height: 0px; opacity: 0; position: absolute;".

(** [reloadIframe], up to [addEventListener]: a new hidden surface with the
    source of the displayed one is put in the document, and [handleLoad]
    waits for its [load] event.  [id] names that listener. *)
Definition reloadIframe (id : nat) (s : State) : State :=
  let newIframe :=
    {| attributes :=
         <["src" := Element.src (iframe s)]> {["style" := hidden_style]};
       contentWindow := Some {| scrollX := 0; scrollY := 0 |} |} in
  set_loading (<[id := newIframe]> (loading s)) s.

(** The attribute loop of [handleLoad]: one round, for the attribute [key]
    (name and value) of the old surface, and the whole loop. *)
Definition copyAttribute (el : Iframe) (key : string * string) : Iframe :=
  if decide (key.1 = "src") then el
  else Element.setAttribute key.1 key.2 el.

Definition copyAttributes (old newIframe : Iframe) : Iframe :=
  foldl copyAttribute newIframe (map_to_list (attributes old)).

(** [handleLoad], the listener of the new surface made under [id]. *)
Definition handleLoad (id : nat) (s : State) : State :=
  match loading s !! id with
  | None => s
  | Some newIframe =>
      let copied := copyAttributes (iframe s) newIframe in
      match Element.scroll (iframeLastScroll s) copied with
      | None =>
          (* [contentWindow] is null: the call throws, the listener ends *)
          set_loading (<[id := copied]> (loading s)) s
      | Some scrolled =>
          (* [iframe.remove(); iframe = newIframe; newIframe.style = null] *)
          let s1 := set_iframe (Element.clear_style scrolled) s in
          let s2 :=
            set_spinner_classList
              (classList.add "w-hidden" (spinner_classList s1)) s1 in
          let s3 := set_hasPendingUpdate false s2 in
          (* [removeEventListener] *)
          set_loading (delete id (loading s3)) s3
      end
  end.

(** [setPreviewData], up to the call of [fetch]; [k] is what the caller
    does with the returned promise. *)
Definition setPreviewData (k : Continuation) (s : State) : State :=
  let s1 := set_hasPendingUpdate true s in
  let s2 :=
    set_spinner_classList
      (classList.remove "w-hidden" (spinner_classList s1)) s1 in
  let s3 := emit (Fetch (previewUrl s2) (form s2)) s2 in
  set_next_id (S (next_id s3))
    (set_requests (<[next_id s3 := k]> (requests s3)) s3).

(** A settled promise: fulfilled with a value, or rejected. *)
Inductive Settled (A : Type) :=
| Fulfilled (value : A)
| Rejected.
Arguments Fulfilled {A} value.
Arguments Rejected {A}.

(** The [.then((data) => ...)] callback of [setPreviewData]. *)
Definition setPreviewData_then (id : nat) (data : Verdict) (s : State)
  : State * bool :=
  let s1 :=
    set_panel_classList
      (classList.toggle "preview-panel--has-errors" (negb (is_valid data))
         (panel_classList s)) s in
  let s2 :=
    set_panel_classList
      (classList.toggle "preview-panel--unavailable"
         (negb (is_available data)) (panel_classList s1)) s1 in
  let s3 := updateIframeLastScroll s2 in
  let s4 := reloadIframe id s3 in
  (s4, is_valid data).

(** The [.catch((error) => ...)] callback of [setPreviewData]; the error
    is thrown again, which [setPreviewData_settle] shows as [Rejected]. *)
Definition setPreviewData_catch (s : State) : State :=
  let s1 :=
    set_spinner_classList
      (classList.add "w-hidden" (spinner_classList s)) s in
  set_hasPendingUpdate false s1.

(** The promise returned by [setPreviewData], once the exchange is over. *)
Definition setPreviewData_settle (id : nat) (r : Response) (s : State)
  : State * Settled bool :=
  match r with
  | Decoded data =>
      let '(s', valid) := setPreviewData_then id data s in
      (s', Fulfilled valid)
  | Failed => (setPreviewData_catch s, Rejected)
  end.

(** The promise returned by [handlePreview]: its [catch] shows the alert
    and returns nothing, so the promise is always fulfilled, with [None]
    ([undefined]) after a failure. *)
Definition handlePreview_settle (id : nat) (r : Response) (s : State)
  : State * option bool :=
  match setPreviewData_settle id r s with
  | (s', Fulfilled valid) => (s', Some valid)
  | (s', Rejected) => (emit (Alert "Error while sending preview data.") s', None)
  end.

(** The [.then((success) => ...)] callback of [handlePreviewInNewTab]. *)
Definition handlePreviewInNewTab_then (success : option bool) (s : State)
  : State :=
  match success with
  | Some true =>
      match URL.parse (newTabButton_href s) with
      | Some url => emit (PreviewWindowNavigate (URL.toString url)) s
      | None => s (* [new URL] throws *)
      end
  | _ => emit PreviewWindowClose (emit WindowFocus s)
  end.

(** The request [id] is over with [r]: run what was chained on it. *)
Definition settle (id : nat) (r : Response) (s : State) : State :=
  match requests s !! id with
  | None => s
  | Some k =>
      let s0 := set_requests (delete id (requests s)) s in
      match k with
      | Ignored => (setPreviewData_settle id r s0).1
      | Alerting => (handlePreview_settle id r s0).1
      | AlertingThenTab =>
          let '(s1, success) := handlePreview_settle id r s0 in
          handlePreviewInNewTab_then success s1
      end
  end.

(** [handlePreviewInNewTab], up to the call of [handlePreview].  [opened]
    tells whether [window.open] returns a window.  When the browser blocks
    the popup it returns [null]: [previewWindow.focus()] then throws a
    [TypeError], the listener ends there and [handlePreview] is never
    called. *)
Definition handlePreviewInNewTab (opened : bool) (s : State) : State :=
  let s1 := emit PreventDefault s in
  let s2 := emit (WindowOpen EmptyString (previewUrl s1)) s1 in
  if opened
  then let s3 := emit PreviewWindowFocus s2 in
       setPreviewData AlertingThenTab s3
  else s2.

(** [new URLSearchParams(data).toString()] for form data. *)
Definition payload (d : list (string * FormDataEntryValue)) : string :=
  URLSearchParams.toString (URLSearchParams_of_FormData d).

(** [hasChanges]: compare the serialised form with the serialised
    [oldData], and keep the new data for the next call. *)
Definition hasChanges (s : State) : State * bool :=
  let newData := form s in
  let oldPayload := payload (oldData s) in
  let newPayload := payload newData in
  (set_oldData newData s, bool_decide (oldPayload ≠ newPayload)).

(** The interval callback, installed when [data-auto-update] is [true]. *)
Definition tick (s : State) : State :=
  if autoUpdate s then
    if hasPendingUpdate s then s
    else
      let '(s1, changed) := hasChanges s in
      if negb changed then s1 else setPreviewData Ignored s1
  else s.

(** [handlePreviewModeChange].  (Writing [src] makes the browser load the
    displayed surface again; what that does to its scrolling reaches the
    panel as [ScrollTo] events.) *)
Definition handlePreviewModeChange (mode : string) (s : State) : State :=
  match URL.parse (Element.src (iframe s)) with
  | None => s (* [new URL] throws *)
  | Some url =>
      let url1 := URL.searchParams_set "mode" mode url in
      let s1 := updateIframeLastScroll s in
      let s2 := set_iframe (Element.set_src (URL.toString url1) (iframe s1)) s1 in
      let url2 := URL.searchParams_delete "in_preview_panel" url1 in
      let s3 := set_newTabButton_href (URL.toString url2) s2 in
      setPreviewData Alerting s3
  end.

(** What [initPreview] finds in the page. *)
Record Panel := {
  dataset_action : string;
  dataset_autoUpdate : string;
  panel_classes : gset string;
  spinner_classes : gset string;
  newTab_href : string;
  preview_iframe : Iframe
}.

Record Page := {
  previewPanel : option Panel;
  editForm : list (string * FormDataEntryValue)
}.

(** [initPreview]: nothing without a panel; otherwise the closure is set up
    and the first submission goes out.  (The size presets and
    [setPreviewWidth] touch none of the state below and are left out.) *)
Definition initPreview (page : Page) : option State :=
  match previewPanel page with
  | None => None
  | Some p =>
      Some (setPreviewData Ignored
        {| previewUrl := dataset_action p;
           autoUpdate := bool_decide (dataset_autoUpdate p = "true");
           panel_classList := panel_classes p;
           spinner_classList := spinner_classes p;
           newTabButton_href := newTab_href p;
           form := editForm page;
           iframeLastScroll := {| top := 0; left := 0 |};
           iframe := preview_iframe p;
           hasPendingUpdate := false;
           oldData := editForm page;
           requests := ∅;
           loading := ∅;
           next_id := 0;
           effects := [] |})
  end.

(* ===================================================================== *)
(** ** Events *)
(* ===================================================================== *)

(** What can happen to a panel after [initPreview]. *)
Inductive Event :=
| Tick                                  (* the 500 ms interval fires *)
| Edit (f : list (string * FormDataEntryValue)) (* the form's entries change *)
| ScrollTo (w : Window)                 (* the displayed surface scrolls *)
| Settle (id : nat) (r : Response)      (* a request's exchange is over *)
| Load (id : nat)                       (* a new surface has loaded *)
| ModeChange (mode : string)            (* the mode select changes *)
| NewTabClick (opened : bool).          (* the new-tab button is clicked, and
                                           [window.open] returns a window
                                           or, for [false], [null] *)

Definition scrollTo (w : Window) (s : State) : State :=
  match contentWindow (iframe s) with
  | None => s
  | Some _ =>
      set_iframe {| attributes := attributes (iframe s);
                    contentWindow := Some w |} s
  end.

Definition step (s : State) (e : Event) : State :=
  match e with
  | Tick => tick s
  | Edit f => set_form f s
  | ScrollTo w => scrollTo w s
  | Settle id r => settle id r s
  | Load id => handleLoad id s
  | ModeChange mode => handlePreviewModeChange mode s
  | NewTabClick opened => handlePreviewInNewTab opened s
  end.

Definition run (s : State) (events : list Event) : State :=
  foldl step s events.

(** Events of the automatic path: neither of the two user actions that call
    [handlePreview]. *)
Definition poll_event (e : Event) : bool :=
  match e with
  | ModeChange _ | NewTabClick _ => false
  | _ => true
  end.

(** Events that neither capture a scroll position nor are the [load] of
    the surface made under [id]. *)
Definition keeps_capture (id : nat) (e : Event) : bool :=
  match e with
  | ModeChange _ => false
  | Settle _ (Decoded _) => false
  | Load id' => negb (id' =? id)
  | _ => true
  end.

(** A pending cycle: the pending flag is up before each of [events]
    happens, starting from [s]. *)
Fixpoint pending_during (s : State) (events : list Event) : bool :=
  match events with
  | [] => true
  | e :: events => hasPendingUpdate s && pending_during (step s e) events
  end.

(** At most one request-and-swap cycle is open (a request not yet settled,
    or a new surface not yet loaded), and none when the pending flag is
    down. *)
Definition one_cycle (s : State) : Prop :=
  size (requests s) + size (loading s) ≤ 1
  ∧ (hasPendingUpdate s = false → requests s = ∅ ∧ loading s = ∅).

(** The calls of [fetch] and of [alert] made so far. *)
Definition is_fetch (e : Effect) : bool :=
  match e with Fetch _ _ => true | _ => false end.

Definition is_alert (e : Effect) : bool :=
  match e with Alert _ => true | _ => false end.

Definition fetches (s : State) : nat :=
  length (List.filter is_fetch (effects s)).

Definition alerts (s : State) : nat :=
  length (List.filter is_alert (effects s)).

(* ===================================================================== *)
(** ** A sample page *)
(* ===================================================================== *)

(** A page title being edited, with an attached document, previewed in a
    surface that is scrolled and carries an inline style. *)
Definition sample_iframe : Iframe :=
  {| attributes :=
       {[ "src" :=
            "https://cms.example/preview/?mode=desktop&in_preview_panel=true";
          "class" := "preview-panel__iframe";
          "title" := "Preview";
          "style" := "border: 0" ]};
     contentWindow := Some {| scrollX := 20; scrollY := 10 |} |}.

Definition sample_form : list (string * FormDataEntryValue) :=
  [("title", Text "Hello"); ("doc", File "a.pdf" "AAA")].

Definition sample_page : Page :=
  {| previewPanel :=
       Some {| dataset_action := "/admin/pages/7/edit/preview/";
               dataset_autoUpdate := "true";
               panel_classes := {["preview-panel"]};
               spinner_classes := {["w-hidden"]};
               newTab_href := "https://cms.example/preview/?mode=desktop";
               preview_iframe := sample_iframe |};
     editForm := sample_form |}.

(** The panel of [sample_page] right after [initPreview]: the first request,
    number 0, is under way. *)
Definition sample_started : State :=
  setPreviewData Ignored
    {| previewUrl := "/admin/pages/7/edit/preview/";
       autoUpdate := true;
       panel_classList := {["preview-panel"]};
       spinner_classList := {["w-hidden"]};
       newTabButton_href := "https://cms.example/preview/?mode=desktop";
       form := sample_form;
       iframeLastScroll := {| top := 0; left := 0 |};
       iframe := sample_iframe;
       hasPendingUpdate := false;
       oldData := sample_form;
       requests := ∅;
       loading := ∅;
       next_id := 0;
       effects := [] |}.

Definition valid_verdict : Verdict :=
  {| is_valid := true; is_available := true |}.

Definition invalid_verdict : Verdict :=
  {| is_valid := false; is_available := true |}.

(** The same panel once the first cycle is over: answered, swapped, idle. *)
Definition sample_idle : State :=
  run sample_started [Settle 0 (Decoded valid_verdict); Load 0].

(* ===================================================================== *)
(** ** Predicates on panel states and traces *)
(* ===================================================================== *)

(** The loading indicator is hidden exactly when no update is pending. *)
Definition indicator_matches (s : State) : Prop :=
  "w-hidden" ∈ spinner_classList s ↔ hasPendingUpdate s = false.

(** The form data sent so far, oldest first. *)
Definition sent (s : State) : list (list (string * FormDataEntryValue)) :=
  omap (λ e, match e with Fetch _ body => Some body | _ => None end)
       (effects s).

(** No two neighbours of the list are equal. *)
Fixpoint adjacent_differ (l : list string) : Prop :=
  match l with
  | a :: (b :: _) as t => a ≠ b ∧ adjacent_differ t
  | _ => True
  end.

(** The state of a panel driven by [initPreview] and the interval alone:
    nobody waits for a request's promise, only the form was sent and only
    to [url], what was sent last has the payload of the stored snapshot,
    and no payload was sent twice in a row. *)
Definition automatic (url : string) (s : State) : Prop :=
  previewUrl s = url
  ∧ (∀ id k, requests s !! id = Some k → k = Ignored)
  ∧ Forall (λ e, ∃ body, e = Fetch url body) (effects s)
  ∧ last (payload <$> sent s) = Some (payload (oldData s))
  ∧ adjacent_differ (payload <$> sent s).

Definition not_mode_change (e : Event) : bool :=
  match e with
  | ModeChange _ => false
  | _ => true
  end.

(** The displayed surface and every new surface on its way have the
    source [src]. *)
Definition same_source (src : string) (s : State) : Prop :=
  Element.src (iframe s) = src
  ∧ ∀ id newIframe, loading s !! id = Some newIframe →
      Element.src newIframe = src.

(* ===================================================================== *)
(** ** Preview size handling *)
(* ===================================================================== *)

Module PreviewSize.

(** A size input: its [value] and its [dataset.deviceWidth], [None] when
    the element has no [data-device-width]. *)
Record Input := { value : string; deviceWidth : option string }.

(** What [initPreview] finds: the inputs with [data-device-width] and the
    input with [data-default-size], if there is one. *)
Record Controls := {
  sizeInputs : list Input;
  defaultSizeInput : option Input
}.

(** A call [previewPanel.style.setProperty(property, value)]; the value
    [None] is [undefined]. *)
Record SetProperty := { property : string; property_value : option string }.

(** [!width] *)
Definition falsy (width : option string) : bool :=
  match width with
  | None => true
  | Some w => bool_decide (w = EmptyString)
  end.

(** [setPreviewWidth]: the call it makes, or [None] when it throws because
    the default size is needed and there is no default size input. *)
Definition setPreviewWidth (c : Controls) (classes : gset string)
    (width : option string) : option SetProperty :=
  let isUnavailable :=
    bool_decide ("preview-panel--unavailable" ∈ classes) in
  if falsy width || isUnavailable then
    match defaultSizeInput c with
    | None => None
    | Some d =>
        Some {| property := "--preview-device-width";
                property_value := deviceWidth d |}
    end
  else
    Some {| property := "--preview-device-width"; property_value := width |}.

Definition device_class (device : string) : string :=
  "preview-panel--" +:+ device.

(** One round of the loop over [sizeInputs] in [togglePreviewSize]. *)
Definition toggleDevice (device : string) (classes : gset string)
    (input : Input) : gset string :=
  classList.toggle (device_class (value input))
    (bool_decide (value input = device)) classes.

(** [togglePreviewSize] for a [change] event on [target]: the new state and
    the call made, or [None] when [setPreviewWidth] throws. *)
Definition togglePreviewSize (c : Controls) (target : Input) (s : State)
  : option (State * SetProperty) :=
  let device := value target in
  match setPreviewWidth c (panel_classList s) (deviceWidth target) with
  | None => None
  | Some call =>
      Some (set_panel_classList
              (foldl (toggleDevice device) (panel_classList s) (sizeInputs c))
              s,
            call)
  end.

End PreviewSize.

(* ===================================================================== *)
(** ** The link controller

    [LinkController] keeps chosen query parameters of a link while taking
    the others from another URL.  [new URL(input, base)] with a base is the
    browser's; it is a parameter [newURL] of the functions below, [None]
    being its [TypeError]. *)
(* ===================================================================== *)

Module LinkController.
Import Equations.Prop.Equations.

(** The [search] of a URL: the query behind a [?], or nothing. *)
Definition search (u : URL.t) : string :=
  match URL.query u with
  | None => EmptyString
  | Some q => if decide (q = EmptyString) then EmptyString else String "?" q
  end.

Definition strip_question_mark (s : string) : string :=
  match s with
  | String c t => if Ascii.eqb c "?" then t else s
  | EmptyString => s
  end.

(** [new URLSearchParams(text)] *)
Definition URLSearchParams_of_string (text : string) : list (string * string) :=
  Urlencoded.parse (strip_question_mark text).

(** [url.search = text], for a [text] that the query needs no further
    encoding of (as every output of [URLSearchParams.toString]). *)
Definition set_search (text : string) (u : URL.t) : URL.t :=
  if decide (text = EmptyString) then
    {| URL.prefix := URL.prefix u; URL.query := None;
       URL.fragment := URL.fragment u; URL.searchParams := [] |}
  else
    let input := strip_question_mark text in
    {| URL.prefix := URL.prefix u; URL.query := Some input;
       URL.fragment := URL.fragment u;
       URL.searchParams := Urlencoded.parse input |}.

(** The controller: the attributes of its element and its two values. *)
Record t := {
  element : gmap string string;
  attrNameValue : string;
  preserveKeysValue : list string
}.

Definition inspect {A : Type} (a : A) : {b : A | a = b} := exist _ a eq_refl.

(** [params.forEach((_, key) => { if (preserve.includes(key))
    params.delete(key) })]: [forEach] visits the tuple at index [i] of the
    list as it is at that moment, then moves on to index [i + 1]. *)
Equations? forEach_delete (preserve : list string) (i : nat)
    (l : list (string * string)) : list (string * string)
    by wf (length l - i) lt :=
  forEach_delete preserve i l with inspect (l !! i) := {
    | exist _ None _ => l
    | exist _ (Some (key, _)) H =>
        if bool_decide (key ∈ preserve)
        then forEach_delete preserve (S i) (URLSearchParams.delete key l)
        else forEach_delete preserve (S i) l }.
Proof.
  - apply lookup_lt_Some in H. unfold URLSearchParams.delete.
    pose proof (length_filter (λ p : string * string, p.1 ≠ key) l). lia.
  - apply lookup_lt_Some in H. lia.
Defined.

(** One round of [currentUrl.searchParams.forEach((value, key) => { if
    (preserve.includes(key)) params.append(key, value) })]. *)
Definition appendPreserved (preserve : list string)
    (params : list (string * string)) (tuple : string * string)
  : list (string * string) :=
  if bool_decide (tuple.1 ∈ preserve) then params ++ [tuple] else params.

(** The parameters [setParamsFromURL] builds from those of the given URL
    and those of the link. *)
Definition mergedParams (preserve : list string)
    (given current : list (string * string)) : list (string * string) :=
  foldl (appendPreserved preserve) (forEach_delete preserve 0 given) current.

(** The [url] getter. *)
Definition url (newURL : string → string → option URL.t) (location : string)
    (c : t) : option URL.t :=
  newURL (default EmptyString (element c !! attrNameValue c)) location.

(** [setParamsFromURL]; [None] when the [url] getter throws. *)
Definition setParamsFromURL (newURL : string → string → option URL.t)
    (location : string) (given : URL.t) (c : t) : option t :=
  let params :=
    forEach_delete (preserveKeysValue c) 0
      (URLSearchParams_of_string (search given)) in
  match url newURL location c with
  | None => None
  | Some currentUrl =>
      let params' :=
        foldl (appendPreserved (preserveKeysValue c)) params
          (URL.searchParams currentUrl) in
      let currentUrl' :=
        set_search (URLSearchParams.toString params') currentUrl in
      Some {| element :=
                <[attrNameValue c := URL.toString currentUrl']> (element c);
              attrNameValue := attrNameValue c;
              preserveKeysValue := preserveKeysValue c |}
  end.

(** [setParamsFromSwapRequest]: [requestUrl] is [e.detail?.requestUrl],
    [None] when it is missing. *)
Definition setParamsFromSwapRequest (newURL : string → string → option URL.t)
    (location : string) (requestUrl : option string) (c : t) : option t :=
  match requestUrl with
  | None => Some c
  | Some text =>
      if decide (text = EmptyString) then Some c
      else match newURL text location with
           | None => None
           | Some given => setParamsFromURL newURL location given c
           end
  end.

(** [setParamsFromLocation], which [connect] calls. *)
Definition setParamsFromLocation (newURL : string → string → option URL.t)
    (location : string) (c : t) : option t :=
  match URL.parse location with
  | None => None
  | Some given => setParamsFromURL newURL location given c
  end.

(** All tuples with a preserved key have the same key. *)
Definition one_preserved_key (preserve : list string)
    (l : list (string * string)) : Prop :=
  ∃ key : string, ∀ p, p ∈ l → p.1 ∈ preserve → p.1 = key.

End LinkController.

(** A link whose [collapsed] parameter is kept, on a page whose location
    carries a search term; absolute URLs only, which need no base. *)
Definition sample_link : LinkController.t :=
  {| LinkController.element :=
       {[ "href" := "https://cms.example/pages/?collapsed=1&p=2";
          "class" := "button" ]};
     LinkController.attrNameValue := "href";
     LinkController.preserveKeysValue := ["collapsed"] |}.

Definition sample_location : string :=
  "https://cms.example/pages/?q=tea&collapsed=0&p=5".

Definition absolute_URL (input base : string) : option URL.t :=
  URL.parse input.

(** Size presets of a panel: the default width is the full width. *)
Definition sample_controls : PreviewSize.Controls :=
  {| PreviewSize.sizeInputs :=
       [ {| PreviewSize.value := "mobile";
            PreviewSize.deviceWidth := Some "375" |};
         {| PreviewSize.value := "tablet";
            PreviewSize.deviceWidth := Some "768" |};
         {| PreviewSize.value := "desktop";
            PreviewSize.deviceWidth := Some "1280" |} ];
     PreviewSize.defaultSizeInput :=
       Some {| PreviewSize.value := "desktop";
               PreviewSize.deviceWidth := Some "1280" |} |}.

(* ===================================================================== *)
(** * Properties *)
(* ===================================================================== *)

(** ** The urlencoded serialiser can be read back *)

Module UrlencodedFacts.
Import Urlencoded.
Local Open Scope char_scope.

Lemma append_nil_l (t : string) : EmptyString +:+ t = t.
Proof. reflexivity. Qed.

Lemma append_cons (a : ascii) (s t : string) :
  String a s +:+ t = String a (s +:+ t).
Proof. reflexivity. Qed.

(** Decoding undoes the encoding of one byte, whatever follows. *)
Lemma decode_encode_byte (a : ascii) (r : string) :
  decode (encode_byte a r) = String a (decode r).
Proof. destruct a as [[] [] [] [] [] [] [] []]; reflexivity. Qed.

Lemma decode_encode (s : string) : decode (encode s) = s.
Proof.
  induction s as [|a t IH]; [reflexivity|].
  cbn [encode]. rewrite decode_encode_byte. by rewrite IH.
Qed.

Lemma contains_encode_byte (c a : ascii) (r : string) :
  delimiter c → contains c (encode_byte a r) = contains c r.
Proof.
  intros [-> | [-> | [-> | ->]]];
    destruct a as [[] [] [] [] [] [] [] []]; reflexivity.
Qed.

(** Encoded text holds none of them. *)
Lemma contains_encode (c : ascii) (s : string) :
  delimiter c → contains c (encode s) = false.
Proof.
  intros Hc. induction s as [|a t IH]; [reflexivity|].
  cbn [encode]. by rewrite contains_encode_byte.
Qed.

Lemma contains_app (c : ascii) (x y : string) :
  contains c (x +:+ y) = contains c x || contains c y.
Proof.
  induction x as [|a x IH]; [reflexivity|].
  rewrite append_cons. cbn [contains]. rewrite IH. by rewrite orb_assoc.
Qed.

Lemma split_at_app (c : ascii) (x y : string) :
  contains c x = false → split_at c (x +:+ String c y) = (x, Some y).
Proof.
  induction x as [|a x IH]; intros H.
  - rewrite append_nil_l. cbn [split_at]. by rewrite Ascii.eqb_refl.
  - cbn [contains] in H. apply orb_false_iff in H as [Ha Hx].
    rewrite append_cons. cbn [split_at]. rewrite Ha, (IH Hx). reflexivity.
Qed.

Lemma split_at_none (c : ascii) (x : string) :
  contains c x = false → split_at c x = (x, None).
Proof.
  induction x as [|a x IH]; intros H; [reflexivity|].
  cbn [contains] in H. apply orb_false_iff in H as [Ha Hx].
  cbn [split_at]. rewrite Ha, (IH Hx). reflexivity.
Qed.

(** The part before the first [c] holds no [c]. *)
Lemma split_at_fst (c : ascii) (s : string) :
  contains c (split_at c s).1 = false.
Proof.
  induction s as [|a s IH]; [reflexivity|].
  cbn [split_at]. destruct (Ascii.eqb a c) eqn:Ha; [reflexivity|].
  destruct (split_at c s) as [x y]. cbn in *. by rewrite Ha, IH.
Qed.

(** Gluing the two parts back gives the string. *)
Lemma split_at_join (c : ascii) (s : string) :
  (split_at c s).1
  +:+ match (split_at c s).2 with Some y => String c y | None => EmptyString end
  = s.
Proof.
  induction s as [|a s IH]; [reflexivity|].
  cbn [split_at]. destruct (Ascii.eqb a c) eqn:Ha.
  - apply Ascii.eqb_eq in Ha as ->. reflexivity.
  - destruct (split_at c s) as [x y]. cbn [fst snd] in *.
    rewrite append_cons. by rewrite IH.
Qed.

Lemma split_on_app (c : ascii) (x y : string) :
  contains c x = false → split_on c (x +:+ String c y) = x :: split_on c y.
Proof.
  induction x as [|a x IH]; intros H.
  - rewrite append_nil_l. cbn [split_on]. by rewrite Ascii.eqb_refl.
  - cbn [contains] in H. apply orb_false_iff in H as [Ha Hx].
    rewrite append_cons. cbn [split_on]. rewrite Ha, (IH Hx). reflexivity.
Qed.

Lemma split_on_none (c : ascii) (x : string) :
  contains c x = false → split_on c x = [x].
Proof.
  induction x as [|a x IH]; intros H; [reflexivity|].
  cbn [contains] in H. apply orb_false_iff in H as [Ha Hx].
  cbn [split_on]. rewrite Ha, (IH Hx). reflexivity.
Qed.

Lemma contains_serialize_pair (c : ascii) (p : string * string) :
  delimiter c → c ≠ "=" → contains c (serialize_pair p) = false.
Proof.
  intros Hc Hne. unfold serialize_pair. rewrite contains_app.
  cbn [contains]. rewrite !contains_encode by done.
  destruct (Ascii.eqb_spec "=" c) as [<-|]; [done|reflexivity].
Qed.

Lemma serialize_pair_nonempty (p : string * string) :
  serialize_pair p ≠ EmptyString.
Proof.
  unfold serialize_pair. destruct (encode p.1); [|rewrite append_cons]; done.
Qed.

Lemma parse_serialize_pair (p : string * string) :
  parse_pair (serialize_pair p) = p.
Proof.
  unfold parse_pair, serialize_pair.
  rewrite split_at_app by (apply contains_encode; unfold delimiter; auto).
  cbn. rewrite !decode_encode. by destruct p.
Qed.

Lemma parse_cons (x y : string) :
  contains "&" x = false → x ≠ EmptyString →
  parse (x +:+ String "&" y) = parse_pair x :: parse y.
Proof.
  intros Hx Hne. unfold parse. rewrite split_on_app by done.
  rewrite filter_cons_True by done. reflexivity.
Qed.

(** Parsing the serialisation of a tuple list gives the list back. *)
Lemma parse_serialize (l : list (string * string)) :
  parse (serialize l) = l.
Proof.
  induction l as [|p l IH]; [reflexivity|].
  assert (contains "&" (serialize_pair p) = false) as Hp
    by (apply contains_serialize_pair; unfold delimiter; auto).
  destruct l as [|p' l].
  - cbn [serialize]. unfold parse. rewrite split_on_none by done.
    rewrite filter_cons_True by apply serialize_pair_nonempty.
    cbn. by rewrite parse_serialize_pair.
  - change (serialize (p :: p' :: l))
      with (serialize_pair p +:+ String "&" (serialize (p' :: l))).
    rewrite parse_cons by (done || apply serialize_pair_nonempty).
    by rewrite parse_serialize_pair, IH.
Qed.

(** Hence two tuple lists with the same serialisation are equal. *)
Lemma serialize_inj (l1 l2 : list (string * string)) :
  serialize l1 = serialize l2 → l1 = l2.
Proof.
  intros H. rewrite <- (parse_serialize l1), <- (parse_serialize l2).
  by rewrite H.
Qed.

Lemma contains_serialize (c : ascii) (l : list (string * string)) :
  delimiter c → c ≠ "=" → c ≠ "&" → contains c (serialize l) = false.
Proof.
  intros Hc H1 H2. induction l as [|p l IH]; [reflexivity|].
  destruct l as [|p' l]; [by apply contains_serialize_pair|].
  change (serialize (p :: p' :: l))
    with (serialize_pair p +:+ String "&" (serialize (p' :: l))).
  rewrite contains_app. cbn [contains].
  rewrite contains_serialize_pair, IH by done.
  destruct (Ascii.eqb_spec "&" c) as [<-|]; [done|reflexivity].
Qed.

End UrlencodedFacts.

(** ** [URLSearchParams] and [URL] *)

Module URLSearchParamsFacts.
Import URLSearchParams.

Lemma get_delete_eq (name : string) (l : list (string * string)) :
  get name (delete name l) = None.
Proof.
  unfold delete. induction l as [|[k v] l IH]; [reflexivity|].
  destruct (decide (k = name)) as [->|Hk].
  - by rewrite filter_cons_False by (cbn; auto).
  - rewrite filter_cons_True by done. cbn [get]. by rewrite decide_False.
Qed.

Lemma get_delete_ne (k name : string) (l : list (string * string)) :
  k ≠ name → get k (delete name l) = get k l.
Proof.
  intros Hne. unfold delete. induction l as [|[k' v] l IH]; [reflexivity|].
  destruct (decide (k' = name)) as [->|Hk].
  - rewrite filter_cons_False by (cbn; auto). cbn [get].
    by rewrite decide_False by done.
  - rewrite filter_cons_True by done. cbn [get]. by rewrite IH.
Qed.

Lemma get_set_eq (name value : string) (l : list (string * string)) :
  get name (set name value l) = Some value.
Proof.
  induction l as [|[k v] l IH]; cbn [set get].
  - by rewrite decide_True.
  - destruct (decide (k = name)); cbn [get].
    + by rewrite decide_True.
    + by rewrite decide_False.
Qed.

Lemma get_set_ne (k name value : string) (l : list (string * string)) :
  k ≠ name → get k (set name value l) = get k l.
Proof.
  intros Hne. induction l as [|[k' v] l IH]; cbn [set get].
  - by rewrite decide_False.
  - destruct (decide (k' = name)) as [->|Hk]; cbn [get].
    + rewrite !decide_False by done. by apply get_delete_ne.
    + by rewrite IH.
Qed.

Lemma filter_delete (name : string) (l : list (string * string)) :
  filter (λ p, p.1 = name) (delete name l) = [].
Proof.
  unfold delete. induction l as [|[k v] l IH]; [reflexivity|].
  destruct (decide (k = name)) as [->|Hk].
  - by rewrite (filter_cons_False (λ p, p.1 ≠ name)) by (cbn; auto).
  - rewrite (filter_cons_True (λ p, p.1 ≠ name)) by done.
    by rewrite filter_cons_False.
Qed.

(** After [set] there is exactly one tuple of that name. *)
Lemma filter_set (name value : string) (l : list (string * string)) :
  filter (λ p, p.1 = name) (set name value l) = [(name, value)].
Proof.
  induction l as [|[k v] l IH]; cbn [set].
  - by rewrite filter_cons_True.
  - destruct (decide (k = name)) as [->|Hk].
    + rewrite filter_cons_True by done. by rewrite filter_delete.
    + by rewrite filter_cons_False.
Qed.

Lemma has_delete (name : string) (l : list (string * string)) :
  has name (delete name l) = false.
Proof.
  unfold has. rewrite get_delete_eq. apply bool_decide_eq_false.
  by intros [? ?].
Qed.

End URLSearchParamsFacts.

Module URLFacts.
Import Urlencoded UrlencodedFacts URL.
Local Open Scope char_scope.

Lemma append_assoc (x y z : string) : (x +:+ y) +:+ z = x +:+ (y +:+ z).
Proof.
  induction x as [|a x IH]; [reflexivity|].
  rewrite !append_cons. by rewrite IH.
Qed.

Lemma append_nil_r (x : string) : x +:+ EmptyString = x.
Proof.
  induction x as [|a x IH]; [reflexivity|]. rewrite append_cons. by rewrite IH.
Qed.

Lemma contains_split_at_fst (c c' : ascii) (s : string) :
  contains c' s = false → contains c' (split_at c s).1 = false.
Proof.
  induction s as [|a s IH]; [done|]. cbn [contains split_at].
  intros [Ha Hs]%orb_false_iff. destruct (Ascii.eqb a c); [done|].
  destruct (split_at c s) as [x y]. cbn in *. by rewrite Ha, IH.
Qed.

Lemma contains_split_at_snd (c c' : ascii) (s y : string) :
  contains c' s = false → (split_at c s).2 = Some y → contains c' y = false.
Proof.
  induction s as [|a s IH]; [done|]. cbn [contains split_at].
  intros [Ha Hs]%orb_false_iff. destruct (Ascii.eqb a c).
  - cbn. by intros [= <-].
  - destruct (split_at c s) as [x y']. cbn in *. auto.
Qed.

Lemma scheme_rest_split_at (c : ascii) (s : string) :
  is_scheme_char c = false → c ≠ ":" →
  scheme_rest s = true → scheme_rest (split_at c s).1 = true.
Proof.
  intros Hc Hcolon. induction s as [|a s IH]; [done|].
  cbn [scheme_rest split_at]. destruct (Ascii.eqb_spec a ":") as [->|Ha].
  - intros _. destruct (Ascii.eqb_spec ":" c) as [<-|]; [done|].
    destruct (split_at c s). cbn. done.
  - destruct (is_scheme_char a) eqn:Hsa; [|done]. intros Hs.
    destruct (Ascii.eqb_spec a c) as [->|]; [congruence|].
    destruct (split_at c s) as [x y]. cbn [fst scheme_rest] in *.
    destruct (Ascii.eqb_spec a ":"); [done|]. rewrite Hsa. auto.
Qed.

Lemma has_scheme_split_at (c : ascii) (s : string) :
  is_scheme_char c = false → c ≠ ":" →
  has_scheme s = true → has_scheme (split_at c s).1 = true.
Proof.
  intros Hc Hcolon. destruct s as [|a s]; [done|]. cbn [has_scheme split_at].
  intros [Ha Hs]%andb_true_iff.
  destruct (Ascii.eqb_spec a c) as [->|].
  - assert (is_scheme_char c = true) as Hsc
      by (unfold is_scheme_char; by rewrite Ha).
    congruence.
  - pose proof (scheme_rest_split_at c s Hc Hcolon Hs) as H.
    destruct (split_at c s) as [x y]. cbn [fst has_scheme] in *.
    by rewrite Ha, H.
Qed.

Lemma scheme_rest_app (x y : string) :
  scheme_rest x = true → scheme_rest (x +:+ y) = true.
Proof.
  induction x as [|a x IH]; [done|]. rewrite append_cons. cbn [scheme_rest].
  destruct (Ascii.eqb a ":"); [done|]. destruct (is_scheme_char a); auto.
Qed.

Lemma has_scheme_app (x y : string) :
  has_scheme x = true → has_scheme (x +:+ y) = true.
Proof.
  destruct x as [|a x]; [done|]. rewrite append_cons. cbn [has_scheme].
  intros [Ha Hx]%andb_true_iff. by rewrite Ha, scheme_rest_app.
Qed.

(** [parse] returns normal URLs, and [toString] gives the text back. *)
Lemma parse_normal (s : string) (u : t) : parse s = Some u → normal u.
Proof.
  unfold parse. destruct (has_scheme s) eqn:Hs; [|done].
  pose proof (has_scheme_split_at "#" s eq_refl ltac:(done) Hs) as H1.
  pose proof (split_at_fst "#" s) as H2.
  destruct (split_at "#" s) as [s1 frag]. cbn [fst] in H1, H2.
  pose proof (has_scheme_split_at "?" s1 eq_refl ltac:(done) H1) as H3.
  pose proof (split_at_fst "?" s1) as H4.
  pose proof (contains_split_at_fst "?" "#" s1 H2) as H5.
  pose proof (contains_split_at_snd "?" "#" s1) as H6.
  destruct (split_at "?" s1) as [pre q]. cbn [fst snd] in *.
  intros [= <-]. repeat split; cbn; try done.
  destruct q as [q|]; [by apply H6|done].
Qed.

Lemma toString_parse (s : string) (u : t) : parse s = Some u → toString u = s.
Proof.
  unfold parse. destruct (has_scheme s); [|done].
  pose proof (split_at_join "#" s) as H1.
  destruct (split_at "#" s) as [s1 frag]. cbn [fst snd] in H1.
  pose proof (split_at_join "?" s1) as H2.
  destruct (split_at "?" s1) as [pre q]. cbn [fst snd] in H2.
  intros [= <-]. unfold toString. cbn.
  subst s s1. by rewrite append_assoc.
Qed.

Lemma parse_toString (u : t) : normal u → parse (toString u) = Some u.
Proof.
  destruct u as [pre q frag sp]. intros (Hs & Hq & Hf & Hqf & Hsp).
  cbn in *. unfold parse, toString. cbn.
  rewrite has_scheme_app by done.
  set (qs := match q with Some q0 => String "?" q0 | None => EmptyString end).
  assert (contains "#" (pre +:+ qs) = false) as Hpq.
  { rewrite contains_app, Hf. subst qs. by destruct q. }
  assert (split_at "?" (pre +:+ qs) = (pre, q)) as Hsplit.
  { subst qs. destruct q as [q|].
    - by apply split_at_app.
    - rewrite append_nil_r. by apply split_at_none. }
  destruct frag as [f|].
  - rewrite <- append_assoc, split_at_app by done. rewrite Hsplit.
    by rewrite Hsp.
  - rewrite append_nil_r, split_at_none by done. rewrite Hsplit. by rewrite Hsp.
Qed.

Lemma update_normal (l : list (string * string)) (u : t) :
  normal u → normal (update l u).
Proof.
  intros (Hs & Hq & Hf & _ & _). unfold normal, update.
  cbn [prefix query fragment searchParams]. repeat split; try done.
  - destruct l; [done|].
    apply contains_serialize; unfold delimiter; auto; done.
  - destruct l as [|p l]; [done|]. cbn [from_option id].
    by rewrite parse_serialize.
Qed.

End URLFacts.

(** ** What the handlers leave alone *)

(** Whether the displayed surface of [s] has a content window decides what
    [updateIframeLastScroll] and [scrollTo] do. *)
Ltac window_cases s :=
  unfold updateIframeLastScroll, scrollTo;
  destruct (contentWindow (iframe s)).

Lemma initPreview_sample : initPreview sample_page = Some sample_started.
Proof. reflexivity. Qed.

Lemma effects_setPreviewData (k : Continuation) (s : State) :
  effects (setPreviewData k s) = effects s ++ [Fetch (previewUrl s) (form s)].
Proof. reflexivity. Qed.

Lemma requests_setPreviewData (k : Continuation) (s : State) :
  requests (setPreviewData k s) = <[next_id s := k]> (requests s).
Proof. reflexivity. Qed.

Lemma effects_updateIframeLastScroll (s : State) :
  effects (updateIframeLastScroll s) = effects s.
Proof. by window_cases s. Qed.

Lemma href_updateIframeLastScroll (s : State) :
  newTabButton_href (updateIframeLastScroll s) = newTabButton_href s.
Proof. by window_cases s. Qed.

Lemma handlePreviewInNewTab_then_frame (success : option bool) (s : State) :
  iframeLastScroll (handlePreviewInNewTab_then success s) = iframeLastScroll s
  ∧ loading (handlePreviewInNewTab_then success s) = loading s
  ∧ iframe (handlePreviewInNewTab_then success s) = iframe s
  ∧ hasPendingUpdate (handlePreviewInNewTab_then success s)
    = hasPendingUpdate s
  ∧ oldData (handlePreviewInNewTab_then success s) = oldData s
  ∧ form (handlePreviewInNewTab_then success s) = form s
  ∧ panel_classList (handlePreviewInNewTab_then success s)
    = panel_classList s.
Proof.
  unfold handlePreviewInNewTab_then.
  destruct success as [[]|]; [destruct (URL.parse _)|..]; by repeat split.
Qed.

(** A failed exchange captures nothing and touches no new surface. *)
Lemma settle_failed_frame (id : nat) (s : State) :
  iframeLastScroll (settle id Failed s) = iframeLastScroll s
  ∧ loading (settle id Failed s) = loading s.
Proof.
  unfold settle. destruct (requests s !! id) as [[]|]; by repeat split.
Qed.

(** What [settle] does with a decoded answer, by continuation. *)
Lemma settle_decoded (id : nat) (data : Verdict) (k : Continuation)
    (s : State) :
  requests s !! id = Some k →
  settle id (Decoded data) s
  = match k with
    | AlertingThenTab => handlePreviewInNewTab_then (Some (is_valid data))
    | _ => λ x, x
    end (setPreviewData_then id data
           (set_requests (delete id (requests s)) s)).1.
Proof. intros Hk. unfold settle. rewrite Hk. by destruct k. Qed.

Lemma setPreviewData_then_frame (id : nat) (data : Verdict) (s : State) :
  let s' := (setPreviewData_then id data s).1 in
  iframeLastScroll s' = iframeLastScroll (updateIframeLastScroll s)
  ∧ loading s' !! id
    = Some {| attributes :=
                <["src" := Element.src (iframe s)]>
                  {["style" := hidden_style]};
              contentWindow := Some {| scrollX := 0; scrollY := 0 |} |}
  ∧ iframe s' = iframe s
  ∧ hasPendingUpdate s' = hasPendingUpdate s
  ∧ oldData s' = oldData s
  ∧ form s' = form s.
Proof.
  unfold setPreviewData_then, reloadIframe, updateIframeLastScroll. cbn.
  destruct (contentWindow (iframe s)); cbn; rewrite lookup_insert_eq; done.
Qed.

(** ** The verdict of the rendering endpoint *)

Lemma toggle_elem (name other : string) (force : bool) (cl : gset string) :
  other ∈ classList.toggle name force cl
  ↔ if decide (other = name) then force = true else other ∈ cl.
Proof.
  unfold classList.toggle, classList.add, classList.remove.
  destruct force, (decide (other = name));
    rewrite ?elem_of_union, ?elem_of_difference, elem_of_singleton;
    intuition congruence.
Qed.

(** What the [then] callback of [setPreviewData] does to the panel. *)
Lemma setPreviewData_then_spec (id : nat) (data : Verdict) (s : State) :
  let s' := (setPreviewData_then id data s).1 in
  ("preview-panel--has-errors" ∈ panel_classList s' ↔ is_valid data = false)
  ∧ ("preview-panel--unavailable" ∈ panel_classList s'
     ↔ is_available data = false)
  ∧ (∃ newIframe,
       loading s' !! id = Some newIframe
       ∧ Element.src newIframe = Element.src (iframe s)
       ∧ Element.getAttribute "style" newIframe = Some hidden_style)
  ∧ hasPendingUpdate s' = hasPendingUpdate s
  ∧ iframe s' = iframe s
  ∧ effects s' = effects s.
Proof.
  cbn zeta.
  destruct (setPreviewData_then_frame id data s) as (_ & Hl & Hif & Hp & _).
  assert (panel_classList (setPreviewData_then id data s).1
          = classList.toggle "preview-panel--unavailable"
              (negb (is_available data))
              (classList.toggle "preview-panel--has-errors"
                 (negb (is_valid data)) (panel_classList s))
          ∧ effects (setPreviewData_then id data s).1 = effects s)
    as [Hcl He].
  { unfold setPreviewData_then, reloadIframe, updateIframeLastScroll. cbn.
    by destruct (contentWindow (iframe s)). }
  rewrite Hcl. split; [|split; [|split; [|done]]].
  - rewrite toggle_elem, decide_False by done.
    rewrite toggle_elem, decide_True by done. apply negb_true_iff.
  - rewrite toggle_elem, decide_True by done. apply negb_true_iff.
  - eexists. split; [exact Hl|].
    unfold Element.src, Element.getAttribute. cbn [attributes].
    rewrite lookup_insert_eq. split; [done|].
    rewrite lookup_insert_ne by done. by rewrite lookup_singleton_eq.
Qed.

(** C6. For every decoded answer of the rendering endpoint, the promise of
    the submission is fulfilled with [is_valid]; and whoever sent the
    request, once the answer is handled the panel has the error class
    exactly when [is_valid] is false and the unavailable class exactly when
    [is_available] is false, and, whatever the verdict, a new hidden surface
    with the source of the displayed one is in the document, waiting to be
    swapped in, while the pending flag and the displayed surface stay as
    they were. *)
Theorem setPreviewData_verdict :
  (∀ (id : nat) (data : Verdict) (s : State),
     (setPreviewData_settle id (Decoded data) s).2
     = Fulfilled (is_valid data))
  ∧ (∀ (s : State) (id : nat) (k : Continuation) (data : Verdict),
       requests s !! id = Some k →
       let s' := settle id (Decoded data) s in
       ("preview-panel--has-errors" ∈ panel_classList s'
        ↔ is_valid data = false)
       ∧ ("preview-panel--unavailable" ∈ panel_classList s'
          ↔ is_available data = false)
       ∧ (∃ newIframe,
            loading s' !! id = Some newIframe
            ∧ Element.src newIframe = Element.src (iframe s)
            ∧ Element.getAttribute "style" newIframe = Some hidden_style)
       ∧ hasPendingUpdate s' = hasPendingUpdate s
       ∧ iframe s' = iframe s).
Proof.
  split; [reflexivity|].
  intros s id k data Hk. cbn zeta. rewrite (settle_decoded id data k s Hk).
  set (s0 := set_requests (delete id (requests s)) s).
  destruct (setPreviewData_then_spec id data s0)
    as (Hhe & Hun & Hnew & Hp & Hif & _).
  change (iframe s0) with (iframe s) in *.
  change (hasPendingUpdate s0) with (hasPendingUpdate s) in *.
  destruct k; try done.
  destruct (handlePreviewInNewTab_then_frame (Some (is_valid data))
              (setPreviewData_then id data s0).1)
    as (_ & -> & -> & -> & _ & _ & ->).
  done.
Qed.

Lemma setPreviewData_verdict_witness :
  let s' := settle 0 (Decoded invalid_verdict) sample_started in
  "preview-panel--has-errors" ∈ panel_classList s'
  ∧ is_Some (loading s' !! 0).
Proof.
  destruct (proj2 setPreviewData_verdict sample_started 0 Ignored
              invalid_verdict) as (Hhe & _ & (f & Hf & _) & _).
  - vm_compute. reflexivity.
  - split; [by apply Hhe | by exists f].
Defined.

(** ** A failed exchange *)

Lemma setPreviewData_catch_spec (s : State) :
  let s' := setPreviewData_catch s in
  hasPendingUpdate s' = false
  ∧ "w-hidden" ∈ spinner_classList s'
  ∧ iframe s' = iframe s
  ∧ loading s' = loading s
  ∧ panel_classList s' = panel_classList s
  ∧ iframeLastScroll s' = iframeLastScroll s
  ∧ effects s' = effects s.
Proof.
  cbn. unfold classList.add. repeat split. set_solver.
Qed.

(** C2, as the code has it. For every submission whose exchange fails, the
    pending flag is cleared, the loading indicator is hidden, no surface is
    swapped or created, the error and unavailable classes stay as they
    were, and the promise of the submission is rejected; one alert is shown
    when the submission was made through [handlePreview] (mode change, new
    tab), and none when it was made by the interval callback or by
    [initPreview]. *)
Theorem setPreviewData_failure (s : State) (id : nat) (k : Continuation) :
  requests s !! id = Some k →
  let s' := settle id Failed s in
  hasPendingUpdate s' = false
  ∧ "w-hidden" ∈ spinner_classList s'
  ∧ iframe s' = iframe s
  ∧ loading s' = loading s
  ∧ panel_classList s' = panel_classList s
  ∧ (setPreviewData_settle id Failed s).2 = Rejected
  ∧ fetches s' = fetches s
  ∧ alerts s' = alerts s + match k with Ignored => 0 | _ => 1 end.
Proof.
  intros Hk. cbn zeta. unfold settle. rewrite Hk.
  set (s0 := set_requests (delete id (requests s)) s).
  destruct (setPreviewData_catch_spec s0)
    as (Hp & Hsp & Hif & Hl & Hcl & _ & He).
  destruct k; cbn -[setPreviewData_catch spinner_classList];
    unfold fetches, alerts; cbn -[setPreviewData_catch spinner_classList];
    rewrite ?He, ?List.filter_app, ?length_app; cbn;
    repeat split; try done; try lia.
Qed.

Lemma setPreviewData_failure_witness :
  let s := run sample_idle [ModeChange "mobile"] in
  hasPendingUpdate (settle 1 Failed s) = false
  ∧ alerts (settle 1 Failed s) = alerts s + 1.
Proof.
  assert (requests (run sample_idle [ModeChange "mobile"]) !! 1
          = Some Alerting) as H by (vm_compute; reflexivity).
  pose proof (setPreviewData_failure _ 1 Alerting H) as (Hp & _ & _ & _ & _ & _ & _ & Ha).
  split; [exact Hp | exact Ha].
Defined.

(** A request that the interval callback sent fails: the flag is cleared
    and no alert is shown, where C2 expects one. *)
Lemma poll_failure_without_alert :
  let s := run sample_idle [Edit [("title", Text "Hello!")]; Tick] in
  requests s !! 1 = Some Ignored
  ∧ hasPendingUpdate (step s (Settle 1 Failed)) = false
  ∧ alerts (step s (Settle 1 Failed)) = 0
  ∧ alerts (step s (Settle 1 Failed)) ≠ alerts s + 1.
Proof. vm_compute. repeat split; discriminate. Qed.

(** ** Opening the preview in a new tab *)

(** C7, as the code has it. A click on the new-tab button for which
    [window.open] returns a window first opens the blank window and focuses
    it, and only then sends the form; the request is remembered with the
    new-tab continuation.  When such a request is answered (the new-tab
    target being a URL), a valid verdict sends the opened window to the
    new-tab target, and an invalid one focuses the editor window again and
    closes the opened window, which is not sent anywhere. *)
Theorem handlePreviewInNewTab_spec (s : State) :
  effects (handlePreviewInNewTab true s)
  = effects s ++ [PreventDefault; WindowOpen EmptyString (previewUrl s);
                  PreviewWindowFocus; Fetch (previewUrl s) (form s)]
  ∧ requests (handlePreviewInNewTab true s) !! next_id s
    = Some AlertingThenTab
  ∧ ∀ (s2 : State) (id : nat) (data : Verdict) (target : URL.t),
      requests s2 !! id = Some AlertingThenTab →
      URL.parse (newTabButton_href s2) = Some target →
      effects (settle id (Decoded data) s2)
      = effects s2 ++
          (if is_valid data
           then [PreviewWindowNavigate (newTabButton_href s2)]
           else [WindowFocus; PreviewWindowClose]).
Proof.
  split; [|split].
  - unfold handlePreviewInNewTab. cbn match.
    rewrite effects_setPreviewData.
    cbn [emit effects previewUrl form]. by rewrite <- !app_assoc.
  - unfold handlePreviewInNewTab. cbn match.
    rewrite requests_setPreviewData. apply lookup_insert_eq.
  - intros s2 id data target Hk Hhref. unfold settle. rewrite Hk.
    unfold handlePreview_settle, setPreviewData_settle, setPreviewData_then.
    unfold handlePreviewInNewTab_then.
    destruct (is_valid data).
    + unfold reloadIframe at 1.
      cbn [newTabButton_href set_loading]. rewrite href_updateIframeLastScroll.
      cbn [newTabButton_href set_panel_classList set_requests]. rewrite Hhref.
      rewrite (URLFacts.toString_parse _ _ Hhref).
      cbn [emit effects reloadIframe set_loading].
      by rewrite effects_updateIframeLastScroll.
    + cbn [emit effects reloadIframe set_loading].
      rewrite effects_updateIframeLastScroll. cbn. by rewrite <- app_assoc.
Qed.

Lemma handlePreviewInNewTab_spec_witness :
  let s2 := handlePreviewInNewTab true sample_idle in
  effects (settle 1 (Decoded valid_verdict) s2)
  = effects s2 ++ [PreviewWindowNavigate (newTabButton_href s2)].
Proof.
  destruct (handlePreviewInNewTab_spec sample_idle) as (_ & _ & H).
  eapply (H (handlePreviewInNewTab true sample_idle) 1 valid_verdict);
    vm_compute; reflexivity.
Defined.

(** The browser blocks the popup, so [window.open] returns [null]: the
    click opens no window, nothing is focused, and the listener ends
    before the form is sent, where C7 expects a focused blank tab and a
    submission for every click. *)
Lemma blocked_popup_sends_nothing :
  let s := step sample_idle (NewTabClick false) in
  effects s
  = effects sample_idle
      ++ [PreventDefault; WindowOpen EmptyString (previewUrl sample_idle)]
  ∧ (PreviewWindowFocus ∉ effects s)
  ∧ fetches s = fetches sample_idle
  ∧ requests s = ∅
  ∧ hasPendingUpdate s = false.
Proof.
  cbn zeta. repeat split; try (vm_compute; reflexivity).
  apply (bool_decide_eq_true_1 (PreviewWindowFocus ∉ _)).
  vm_compute. reflexivity.
Qed.

(** C10. When the request of a new-tab click fails, the promise of
    [handlePreview] is still fulfilled, with no value; the new-tab
    continuation then does what it does for an invalid verdict: after the
    one alert the editor window is focused and the opened window is closed,
    and it is not sent anywhere. *)
Theorem new_tab_failure (s : State) (id : nat) :
  requests s !! id = Some AlertingThenTab →
  (handlePreview_settle id Failed s).2 = None
  ∧ handlePreviewInNewTab_then None = handlePreviewInNewTab_then (Some false)
  ∧ effects (settle id Failed s)
    = effects s ++ [Alert "Error while sending preview data.";
                    WindowFocus; PreviewWindowClose]
  ∧ hasPendingUpdate (settle id Failed s) = false.
Proof.
  intros Hk. split; [reflexivity|]. split; [reflexivity|].
  unfold settle. rewrite Hk. cbn. by rewrite <- !app_assoc.
Qed.

Lemma new_tab_failure_witness :
  let s := handlePreviewInNewTab true sample_idle in
  effects (settle 1 Failed s)
  = effects s ++ [Alert "Error while sending preview data.";
                  WindowFocus; PreviewWindowClose].
Proof.
  refine (proj1 (proj2 (proj2 (new_tab_failure _ 1 _)))).
  vm_compute. reflexivity.
Defined.

(** ** Changing the preview mode *)

Lemma src_set_src (value : string) (el : Iframe) :
  Element.src (Element.set_src value el) = value.
Proof.
  unfold Element.src, Element.set_src, Element.getAttribute,
    Element.setAttribute. cbn [attributes]. by rewrite lookup_insert_eq.
Qed.

(** C8. When the mode select changes to [mode] (the source of the displayed
    surface being a URL), the source becomes the same URL with exactly one
    [mode] parameter, of value [mode], its other parameters untouched; the
    new-tab target becomes that URL without any [in_preview_panel]
    parameter; and the form is sent, whatever the pending flag and whether
    or not the form differs from the last snapshot. *)
Theorem handlePreviewModeChange_spec (mode : string) (s : State) (url : URL.t) :
  URL.parse (Element.src (iframe s)) = Some url →
  let s' := handlePreviewModeChange mode s in
  ∃ url' target : URL.t,
    URL.parse (Element.src (iframe s')) = Some url'
    ∧ URLSearchParams.get "mode" (URL.searchParams url') = Some mode
    ∧ filter (λ p, p.1 = "mode") (URL.searchParams url') = [("mode", mode)]
    ∧ URL.prefix url' = URL.prefix url
    ∧ URL.fragment url' = URL.fragment url
    ∧ (∀ k, k ≠ "mode" →
         URLSearchParams.get k (URL.searchParams url')
         = URLSearchParams.get k (URL.searchParams url))
    ∧ newTabButton_href s'
      = URL.toString (URL.searchParams_delete "in_preview_panel" url')
    ∧ URL.parse (newTabButton_href s') = Some target
    ∧ URLSearchParams.has "in_preview_panel" (URL.searchParams target) = false
    ∧ (∀ k, k ≠ "in_preview_panel" →
         URLSearchParams.get k (URL.searchParams target)
         = URLSearchParams.get k (URL.searchParams url'))
    ∧ effects s' = effects s ++ [Fetch (previewUrl s) (form s)]
    ∧ hasPendingUpdate s' = true
    ∧ requests s' !! next_id s = Some Alerting.
Proof.
  intros Hurl. cbn zeta. unfold handlePreviewModeChange. rewrite Hurl.
  set (url1 := URL.searchParams_set "mode" mode url).
  set (url2 := URL.searchParams_delete "in_preview_panel" url1).
  assert (URL.normal url1) as Hn1
    by (apply URLFacts.update_normal, (URLFacts.parse_normal _ _ Hurl)).
  assert (URL.normal url2) as Hn2 by by apply URLFacts.update_normal.
  exists url1, url2.
  rewrite effects_setPreviewData, requests_setPreviewData.
  cbn [iframe set_newTabButton_href set_iframe newTabButton_href
       hasPendingUpdate setPreviewData set_next_id set_requests emit
       set_spinner_classList set_hasPendingUpdate effects previewUrl form
       next_id].
  rewrite src_set_src, effects_updateIframeLastScroll.
  repeat split.
  - by apply URLFacts.parse_toString.
  - apply URLSearchParamsFacts.get_set_eq.
  - apply URLSearchParamsFacts.filter_set.
  - intros k Hk. by apply URLSearchParamsFacts.get_set_ne.
  - by apply URLFacts.parse_toString.
  - apply URLSearchParamsFacts.has_delete.
  - intros k Hk. by apply URLSearchParamsFacts.get_delete_ne.
  - by window_cases s.
  - window_cases s; cbn; apply lookup_insert_eq.
Qed.

Lemma handlePreviewModeChange_spec_witness :
  let s' := handlePreviewModeChange "mobile" sample_idle in
  ∃ url' target : URL.t,
    URL.parse (Element.src (iframe s')) = Some url'
    ∧ URLSearchParams.get "mode" (URL.searchParams url') = Some "mobile"
    ∧ URL.parse (newTabButton_href s') = Some target
    ∧ URLSearchParams.has "in_preview_panel" (URL.searchParams target) = false.
Proof.
  assert (is_Some (URL.parse (Element.src (iframe sample_idle)))) as [url Hurl]
    by (vm_compute; eauto).
  destruct (handlePreviewModeChange_spec "mobile" sample_idle url Hurl)
    as (url' & target & H1 & H2 & _ & _ & _ & _ & _ & H3 & H4 & _).
  exists url', target. auto.
Defined.

(** ** The swap: attributes *)

Lemma copy_window (l : list (string * string)) (el : Iframe) :
  contentWindow (foldl copyAttribute el l) = contentWindow el.
Proof.
  revert el. induction l as [|key l IH]; intros el; [reflexivity|].
  cbn [foldl]. rewrite IH. unfold copyAttribute. by case_decide.
Qed.

(** The loop leaves alone every attribute it does not meet, and [src]. *)
Lemma copy_other (l : list (string * string)) (el : Iframe) (name : string) :
  name ∉ l.*1 ∨ name = "src" →
  attributes (foldl copyAttribute el l) !! name = attributes el !! name.
Proof.
  revert el. induction l as [|[k v] l IH]; intros el Hname; [reflexivity|].
  cbn [foldl]. rewrite IH.
  - unfold copyAttribute. cbn [fst snd]. case_decide; [done|].
    cbn [Element.setAttribute attributes]. apply lookup_insert_ne.
    destruct Hname as [Hname | ->]; [|done].
    intros ->. apply Hname. cbn. left.
  - destruct Hname as [Hname | ->]; [left|by right].
    intros Hin. apply Hname. cbn. by right.
Qed.

(** It writes every other attribute it meets. *)
Lemma copy_written (l : list (string * string)) (el : Iframe)
    (name value : string) :
  NoDup l.*1 → (name, value) ∈ l → name ≠ "src" →
  attributes (foldl copyAttribute el l) !! name = Some value.
Proof.
  revert el. induction l as [|[k v] l IH]; intros el Hnd Hin Hsrc.
  - by apply elem_of_nil in Hin.
  - cbn in Hnd. apply NoDup_cons in Hnd as [Hk Hnd].
    apply elem_of_cons in Hin as [[= -> ->] | Hin].
    + cbn [foldl]. rewrite copy_other by by left.
      unfold copyAttribute. cbn [fst snd]. rewrite decide_False by done.
      apply lookup_insert_eq.
    + cbn [foldl]. by apply IH.
Qed.

Lemma copyAttributes_window (old newIframe : Iframe) :
  contentWindow (copyAttributes old newIframe) = contentWindow newIframe.
Proof. apply copy_window. Qed.

Lemma copyAttributes_src (old newIframe : Iframe) :
  attributes (copyAttributes old newIframe) !! "src"
  = attributes newIframe !! "src".
Proof. apply copy_other. by right. Qed.

Lemma copyAttributes_lookup (old newIframe : Iframe) (name value : string) :
  name ≠ "src" → attributes old !! name = Some value →
  attributes (copyAttributes old newIframe) !! name = Some value.
Proof.
  intros Hsrc Hold. apply copy_written; [|by apply elem_of_map_to_list|done].
  apply NoDup_fst_map_to_list.
Qed.

Lemma handleLoad_swapped (s : State) (id : nat) (newIframe : Iframe) (w : Window) :
  loading s !! id = Some newIframe → contentWindow newIframe = Some w →
  handleLoad id s
  = set_loading (delete id (loading s))
      (set_hasPendingUpdate false
         (set_spinner_classList (classList.add "w-hidden" (spinner_classList s))
            (set_iframe
               (Element.clear_style
                  {| attributes :=
                       attributes (copyAttributes (iframe s) newIframe);
                     contentWindow :=
                       Some {| scrollX := left (iframeLastScroll s);
                               scrollY := top (iframeLastScroll s) |} |})
               s))).
Proof.
  intros Hl Hw. unfold handleLoad. rewrite Hl. unfold Element.scroll.
  rewrite copyAttributes_window, Hw. reflexivity.
Qed.

(** C3, as the code has it. When a new surface has loaded and is swapped
    in, every attribute of the old surface other than [src] and [style] is
    on the new surface with the same value; the new surface keeps its own
    [src], and its [style] attribute is empty. *)
Theorem handleLoad_attributes (s : State) (id : nat) (newIframe : Iframe)
    (w : Window) :
  loading s !! id = Some newIframe → contentWindow newIframe = Some w →
  let swapped := iframe (handleLoad id s) in
  (∀ name value,
     name ≠ "src" → name ≠ "style" →
     Element.getAttribute name (iframe s) = Some value →
     Element.getAttribute name swapped = Some value)
  ∧ Element.getAttribute "src" swapped = Element.getAttribute "src" newIframe
  ∧ Element.getAttribute "style" swapped = Some EmptyString.
Proof.
  intros Hl Hw. cbn zeta. rewrite (handleLoad_swapped s id newIframe w Hl Hw).
  cbn [iframe set_loading set_hasPendingUpdate set_spinner_classList
       set_iframe].
  unfold Element.getAttribute, Element.clear_style, Element.setAttribute.
  cbn [attributes]. split; [|split].
  - intros name value Hsrc Hstyle Hold.
    rewrite lookup_insert_ne by done. by apply copyAttributes_lookup.
  - rewrite lookup_insert_ne by done. apply copyAttributes_src.
  - apply lookup_insert_eq.
Qed.

Lemma handleLoad_attributes_witness :
  let s := run sample_started [Settle 0 (Decoded valid_verdict)] in
  Element.getAttribute "class" (iframe (handleLoad 0 s))
  = Some "preview-panel__iframe".
Proof.
  assert (is_Some (loading (run sample_started
                              [Settle 0 (Decoded valid_verdict)]) !! 0))
    as [newIframe Hl] by (vm_compute; eauto).
  assert (contentWindow newIframe = Some {| scrollX := 0; scrollY := 0 |})
    as Hw by (vm_compute in Hl; by injection Hl as <-).
  refine (proj1 (handleLoad_attributes _ 0 newIframe _ Hl Hw)
            "class" _ _ _ _); [done | done |].
  vm_compute. reflexivity.
Defined.

(** The displayed surface of the sample page has [style="border: 0"]; after
    the swap the new surface has an empty [style], where C3 expects the old
    value. *)
Lemma swap_loses_style :
  let s := run sample_started [Settle 0 (Decoded valid_verdict)] in
  Element.getAttribute "style" (iframe s) = Some "border: 0"
  ∧ hasPendingUpdate (step s (Load 0)) = false
  ∧ Element.getAttribute "style" (iframe (step s (Load 0))) = Some EmptyString
  ∧ Element.getAttribute "style" (iframe (step s (Load 0)))
    ≠ Element.getAttribute "style" (iframe s).
Proof. vm_compute. repeat split; discriminate. Qed.

(** ** The swap: scroll position *)

(** A decoded answer captures the scroll position of the displayed surface
    and makes the new surface, whoever sent the request. *)
Lemma settle_decoded_frame (id : nat) (data : Verdict) (k : Continuation)
    (s : State) :
  requests s !! id = Some k →
  iframeLastScroll (settle id (Decoded data) s)
  = iframeLastScroll (updateIframeLastScroll s)
  ∧ ∃ newIframe,
      loading (settle id (Decoded data) s) !! id = Some newIframe
      ∧ contentWindow newIframe = Some {| scrollX := 0; scrollY := 0 |}.
Proof.
  intros Hk. rewrite (settle_decoded id data k s Hk).
  set (s0 := set_requests (delete id (requests s)) s).
  destruct (setPreviewData_then_frame id data s0) as (Hs & Hl & _).
  assert (iframeLastScroll (updateIframeLastScroll s0)
          = iframeLastScroll (updateIframeLastScroll s)) as Hs0.
  { unfold updateIframeLastScroll. subst s0. cbn.
    by destruct (contentWindow (iframe s)). }
  destruct k;
    rewrite ?(proj1 (handlePreviewInNewTab_then_frame _ _)),
            ?(proj1 (proj2 (handlePreviewInNewTab_then_frame _ _)));
    (split; [congruence | eexists; split; [exact Hl | reflexivity]]).
Qed.

Lemma step_keeps_capture (id : nat) (e : Event) (s : State) :
  keeps_capture id e = true →
  iframeLastScroll (step s e) = iframeLastScroll s
  ∧ loading (step s e) !! id = loading s !! id.
Proof.
  destruct e as [|f|w|id' [data|]|id'|mode|[|]];
    cbn [keeps_capture step];
    intros He; try done.
  - unfold tick. destruct (autoUpdate s), (hasPendingUpdate s); try done.
    unfold hasChanges. by destruct (negb _).
  - by window_cases s.
  - destruct (settle_failed_frame id' s) as [-> ->]. done.
  - apply negb_true_iff, Nat.eqb_neq in He. unfold handleLoad.
    destruct (loading s !! id') as [newIframe|]; [|done].
    destruct (Element.scroll _ _); cbn.
    + by rewrite lookup_delete_ne.
    + by rewrite lookup_insert_ne.
Qed.

Lemma run_keeps_capture (id : nat) (events : list Event) (s : State) :
  forallb (keeps_capture id) events = true →
  iframeLastScroll (run s events) = iframeLastScroll s
  ∧ loading (run s events) !! id = loading s !! id.
Proof.
  revert s. induction events as [|e events IH]; intros s; [done|].
  cbn [forallb]. intros [He Hevents]%andb_true_iff.
  change (run s (e :: events)) with (run (step s e) events).
  destruct (IH (step s e) Hevents) as [-> ->].
  by apply step_keeps_capture.
Qed.

(** C5, as the code has it. When a new surface has loaded and is swapped
    in, it is scrolled to the position that [iframeLastScroll] holds at that
    moment.  That is the position read from the displayed surface while
    the answer was handled, provided the displayed surface then had a
    content window and, between that answer and the load, no mode change
    and no other answer was handled. *)
Theorem handleLoad_scroll :
  (∀ (s : State) (id : nat) (newIframe : Iframe) (w : Window),
     loading s !! id = Some newIframe → contentWindow newIframe = Some w →
     contentWindow (iframe (handleLoad id s))
     = Some {| scrollX := left (iframeLastScroll s);
               scrollY := top (iframeLastScroll s) |})
  ∧ (∀ (s : State) (id : nat) (k : Continuation) (data : Verdict)
       (w : Window) (events : list Event),
       requests s !! id = Some k →
       contentWindow (iframe s) = Some w →
       forallb (keeps_capture id) events = true →
       contentWindow
         (iframe (handleLoad id (run (settle id (Decoded data) s) events)))
       = Some w).
Proof.
  assert (∀ (s : State) (id : nat) (newIframe : Iframe) (w : Window),
     loading s !! id = Some newIframe → contentWindow newIframe = Some w →
     contentWindow (iframe (handleLoad id s))
     = Some {| scrollX := left (iframeLastScroll s);
               scrollY := top (iframeLastScroll s) |}) as Hload.
  { intros s id newIframe w Hl Hw.
    by rewrite (handleLoad_swapped s id newIframe w Hl Hw). }
  split; [exact Hload|].
  intros s id k data w events Hk Hw Hevents.
  destruct (settle_decoded_frame id data k s Hk) as (Hscroll & f & Hf & Hfw).
  destruct (run_keeps_capture id events (settle id (Decoded data) s) Hevents)
    as [Hs Hl].
  rewrite Hf in Hl. rewrite (Hload _ _ _ _ Hl Hfw), Hs, Hscroll.
  unfold updateIframeLastScroll. rewrite Hw. cbn. by destruct w.
Qed.

Lemma handleLoad_scroll_witness :
  contentWindow
    (iframe (handleLoad 0
       (run (settle 0 (Decoded valid_verdict) sample_started)
            [Tick; Edit [("title", Text "Hello!")]])))
  = Some {| scrollX := 20; scrollY := 10 |}.
Proof.
  refine (proj2 handleLoad_scroll sample_started 0 Ignored valid_verdict
            _ _ _ _ _); vm_compute; reflexivity.
Defined.

(** The answer is handled while the surface is scrolled to (20, 10); the
    surface is then scrolled to (3, 4) and the mode is changed before the
    new surface has loaded: the new surface is scrolled to (3, 4), where C5
    expects the position read while the answer was handled. *)
Lemma swap_scroll_after_mode_change :
  let s1 := run sample_started [Settle 0 (Decoded valid_verdict)] in
  let s2 :=
    run s1 [ScrollTo {| scrollX := 3; scrollY := 4 |}; ModeChange "mobile";
            Load 0] in
  iframeLastScroll s1 = {| top := 10; left := 20 |}
  ∧ contentWindow (iframe s2) = Some {| scrollX := 3; scrollY := 4 |}
  ∧ contentWindow (iframe s2) ≠ Some {| scrollX := 20; scrollY := 10 |}.
Proof. vm_compute. repeat split; discriminate. Qed.

(** ** The form snapshot comparator *)

(** Forms that differ in the text of one entry have different payloads. *)
Lemma payload_single_change (before after : list (string * FormDataEntryValue))
    (name : string) (v v' : FormDataEntryValue) :
  entry_string v ≠ entry_string v' →
  payload (before ++ (name, v) :: after)
  ≠ payload (before ++ (name, v') :: after).
Proof.
  intros Hv Heq. unfold payload, URLSearchParams.toString in Heq.
  apply UrlencodedFacts.serialize_inj in Heq.
  unfold URLSearchParams_of_FormData in Heq.
  rewrite !fmap_app, !fmap_cons in Heq.
  apply app_inv_head in Heq. cbn in Heq. congruence.
Qed.

(** Calls of [hasChanges] with the form left alone: after the first one the
    snapshot is the form. *)
Lemma hasChanges_again (n : nat) (s : State) :
  oldData s = form s →
  (hasChanges (Nat.iter n (λ x, (hasChanges x).1) s)).2 = false.
Proof.
  intros Hsync.
  assert (oldData (Nat.iter n (λ x, (hasChanges x).1) s)
          = form (Nat.iter n (λ x, (hasChanges x).1) s)) as Hn.
  { induction n as [|n IH]; [done|]. reflexivity. }
  unfold hasChanges at 1. cbn [snd]. rewrite Hn.
  apply bool_decide_eq_false. by intros H.
Qed.

(** C4, as the code has it. [hasChanges] answers whether the payload of the
    form differs from the payload of the stored snapshot, and in every case
    stores the form as the new snapshot; equal payloads are reported as no
    change.  After a change of one entry that changes the text the entry
    contributes to the payload (any change of a string value), with the
    snapshot taken before the change, the next call answers true and every
    further call, the form being left alone, answers false. *)
Theorem hasChanges_spec :
  (∀ s : State,
     (hasChanges s).2 = bool_decide (payload (oldData s) ≠ payload (form s))
     ∧ oldData (hasChanges s).1 = form s
     ∧ form (hasChanges s).1 = form s)
  ∧ (∀ s : State,
       payload (oldData s) = payload (form s) → (hasChanges s).2 = false)
  ∧ (∀ (s : State) (before after : list (string * FormDataEntryValue))
       (name : string) (v v' : FormDataEntryValue),
       oldData s = before ++ (name, v) :: after →
       form s = before ++ (name, v') :: after →
       entry_string v ≠ entry_string v' →
       (hasChanges s).2 = true
       ∧ ∀ n : nat,
           (hasChanges (Nat.iter n (λ x, (hasChanges x).1) (hasChanges s).1)).2
           = false).
Proof.
  split; [|split].
  - intros s. by repeat split.
  - intros s Heq. unfold hasChanges. cbn [snd]. fold (payload (oldData s)).
    fold (payload (form s)). apply bool_decide_eq_false. by intros H.
  - intros s before after name v v' Hold Hform Hv. split.
    + unfold hasChanges. cbn [snd]. fold (payload (oldData s)).
      fold (payload (form s)). rewrite Hold, Hform.
      apply bool_decide_eq_true. by apply payload_single_change.
    + intros n. by apply hasChanges_again.
Qed.

Lemma hasChanges_spec_witness :
  let s := step sample_idle (Edit [("title", Text "Hello!");
                                   ("doc", File "a.pdf" "AAA")]) in
  (hasChanges s).2 = true
  ∧ (hasChanges (Nat.iter 3 (λ x, (hasChanges x).1) (hasChanges s).1)).2
    = false.
Proof.
  destruct (proj2 (proj2 hasChanges_spec)
              (step sample_idle (Edit [("title", Text "Hello!");
                                       ("doc", File "a.pdf" "AAA")]))
              [] [("doc", File "a.pdf" "AAA")] "title"
              (Text "Hello") (Text "Hello!")) as [H1 H2].
  - vm_compute. reflexivity.
  - vm_compute. reflexivity.
  - cbn. discriminate.
  - split; [exact H1 | exact (H2 3)].
Defined.

(** The document of the sample form is replaced by another file, nothing
    else changes: [hasChanges] answers false, where C4 expects true. *)
Lemma file_change_not_reported :
  let s := step sample_idle (Edit [("title", Text "Hello");
                                   ("doc", File "b.pdf" "BBB")]) in
  oldData s = [("title", Text "Hello"); ("doc", File "a.pdf" "AAA")]
  ∧ form s = [("title", Text "Hello"); ("doc", File "b.pdf" "BBB")]
  ∧ (hasChanges s).2 = false.
Proof. vm_compute. repeat split. Qed.

(** ** The poll gate *)

Lemma tick_pending (s : State) : hasPendingUpdate s = true → tick s = s.
Proof. intros Hp. unfold tick. rewrite Hp. by destruct (autoUpdate s). Qed.

Lemma one_cycle_tick (s : State) : one_cycle s → one_cycle (tick s).
Proof.
  intros Hone. pose proof Hone as [Hsize Hidle]. unfold tick.
  destruct (autoUpdate s); [|done].
  destruct (hasPendingUpdate s) eqn:Hp; [done|].
  destruct (Hidle eq_refl) as [Hr Hl].
  unfold hasChanges. destruct (negb _); [done|].
  split; [|done]. cbn. rewrite Hr, Hl.
  by rewrite insert_empty, map_size_singleton, map_size_empty.
Qed.

Lemma one_cycle_settle (id : nat) (r : Response) (s : State) :
  one_cycle s → one_cycle (settle id r s).
Proof.
  intros Hone. pose proof Hone as [Hsize Hidle].
  destruct (requests s !! id) as [k|] eqn:Hk;
    [|unfold settle; by rewrite Hk].
  assert (size (requests s) ≠ 0) as Hne.
  { apply map_size_non_empty_iff. intros H. by rewrite H in Hk. }
  assert (loading s = ∅) as Hl by (apply map_size_empty_iff; lia).
  assert (delete id (requests s) = ∅) as Hr.
  { apply map_size_empty_iff. rewrite map_size_delete_Some by eauto. lia. }
  assert (hasPendingUpdate s = true) as Hp.
  { destruct (hasPendingUpdate s); [done|].
    destruct (Hidle eq_refl) as [H _]. by rewrite H in Hk. }
  destruct r as [data|].
  - rewrite (settle_decoded id data k s Hk).
    set (s0 := set_requests (delete id (requests s)) s).
    assert (one_cycle (setPreviewData_then id data s0).1) as Hthen.
    { unfold setPreviewData_then, reloadIframe, updateIframeLastScroll.
      subst s0. cbn. split.
      - destruct (contentWindow (iframe s)); cbn; rewrite Hr, Hl;
          by rewrite insert_empty, map_size_singleton, map_size_empty.
      - destruct (contentWindow (iframe s)); cbn; congruence. }
    destruct k; try exact Hthen.
    destruct Hthen as [H1 H2]. unfold one_cycle, handlePreviewInNewTab_then.
    destruct (is_valid data); [destruct (URL.parse _)|]; by split.
  - unfold settle. rewrite Hk.
    destruct k; (split; [cbn; rewrite Hr, Hl, !map_size_empty; lia
                        | intros _; cbn; by rewrite Hr, Hl]).
Qed.

Lemma one_cycle_handleLoad (id : nat) (s : State) :
  one_cycle s → one_cycle (handleLoad id s).
Proof.
  intros Hone. pose proof Hone as [Hsize Hidle]. unfold handleLoad.
  destruct (loading s !! id) as [newIframe|] eqn:Hl; [|done].
  assert (size (loading s) ≠ 0) as Hne.
  { apply map_size_non_empty_iff. intros H. by rewrite H in Hl. }
  assert (requests s = ∅) as Hr by (apply map_size_empty_iff; lia).
  destruct (Element.scroll _ _).
  - assert (delete id (loading s) = ∅) as Hd.
    { apply map_size_empty_iff. rewrite map_size_delete_Some by eauto. lia. }
    split; cbn; rewrite Hd, Hr; [rewrite !map_size_empty; lia | done].
  - split; cbn.
    + by rewrite map_size_insert_Some by eauto.
    + intros Hp. destruct (Hidle Hp) as [_ H]. by rewrite H in Hl.
Qed.

(** Every event of the automatic path keeps at most one cycle open. *)
Lemma one_cycle_step (e : Event) (s : State) :
  poll_event e = true → one_cycle s → one_cycle (step s e).
Proof.
  destruct e as [|f|w|id r|id|mode|]; cbn [poll_event step]; try done.
  - intros _. apply one_cycle_tick.
  - intros _ H. by window_cases s.
  - intros _. apply one_cycle_settle.
  - intros _. apply one_cycle_handleLoad.
Qed.

Lemma one_cycle_run (events : list Event) (s : State) :
  forallb poll_event events = true → one_cycle s → one_cycle (run s events).
Proof.
  revert s. induction events as [|e events IH]; intros s; [done|].
  cbn [forallb]. intros [He Hevents]%andb_true_iff Hs.
  change (run s (e :: events)) with (run (step s e) events).
  by apply IH, one_cycle_step.
Qed.

Lemma one_cycle_initPreview (page : Page) (s : State) :
  initPreview page = Some s → one_cycle s.
Proof.
  unfold initPreview. destruct (previewPanel page) as [p|]; [|done].
  intros [= <-]. split; [|done]. cbn.
  by rewrite insert_empty, map_size_singleton, map_size_empty.
Qed.

(** C1. While the pending flag is up, a tick of the interval does nothing
    at all, so it sends no request, and neither does any number of ticks in
    a row.  Along every sequence of events of the
    automatic path after [initPreview] (ticks, form edits, scrolling,
    answers and failures of requests, loads of new surfaces) at most one
    request-and-swap cycle is open at a time, and for as long as one is
    open (its request not settled, or its new surface not loaded) a tick
    sends nothing: a second request only leaves after the cycle of the
    first has cleared the flag. *)
Theorem poll_gate :
  (∀ s : State, hasPendingUpdate s = true → tick s = s)
  ∧ (∀ (s : State) (n : nat),
       hasPendingUpdate s = true → run s (replicate n Tick) = s)
  ∧ (∀ (page : Page) (s0 : State) (events : list Event),
       initPreview page = Some s0 →
       forallb poll_event events = true →
       let s := run s0 events in
       one_cycle s
       ∧ (requests s ≠ ∅ ∨ loading s ≠ ∅ →
          hasPendingUpdate s = true ∧ tick s = s)).
Proof.
  split; [exact tick_pending|]. split.
  { intros s n Hp. induction n as [|n IH]; [done|].
    change (run s (replicate (S n) Tick))
      with (run (tick s) (replicate n Tick)).
    by rewrite tick_pending. }
  intros page s0 events Hinit Hevents. cbn zeta.
  pose proof (one_cycle_run events s0 Hevents
                (one_cycle_initPreview page s0 Hinit)) as Hone.
  split; [exact Hone|]. intros Hopen.
  assert (hasPendingUpdate (run s0 events) = true) as Hp.
  { destruct (hasPendingUpdate (run s0 events)) eqn:Hp; [done|].
    destruct Hone as [_ Hidle]. destruct (Hidle Hp) as [Hr Hl].
    by destruct Hopen. }
  split; [exact Hp | by apply tick_pending].
Qed.

Lemma poll_gate_witness :
  let s := run sample_started
             [Settle 0 (Decoded valid_verdict); Load 0;
              Edit [("title", Text "Hello!")]; Tick;
              Edit [("title", Text "Hello again")]] in
  requests s !! 1 = Some Ignored ∧ hasPendingUpdate s = true ∧ tick s = s.
Proof.
  set (events := [Settle 0 (Decoded valid_verdict); Load 0;
                  Edit [("title", Text "Hello!")]; Tick;
                  Edit [("title", Text "Hello again")]]).
  assert (requests (run sample_started events) !! 1 = Some Ignored) as Hk
    by (vm_compute; reflexivity).
  pose proof (proj2 (proj2 poll_gate) sample_page sample_started events
                initPreview_sample eq_refl) as H.
  cbn zeta in *. revert Hk H. generalize (run sample_started events).
  intros s Hk [_ H]. split; [exact Hk|]. apply H. left.
  intros Hr. rewrite Hr, lookup_empty in Hk. discriminate Hk.
Defined.

(** ** The snapshot during a pending cycle *)

(** Whatever happens while the pending flag is up, the snapshot stays:
    only an idle tick writes it. *)
Lemma step_keeps_snapshot (e : Event) (s : State) :
  hasPendingUpdate s = true →
  oldData (step s e) = oldData s ∧ autoUpdate (step s e) = autoUpdate s.
Proof.
  intros Hp. destruct e as [|f|w|id r|id|mode|[|]]; cbn [step]; try done.
  - by rewrite tick_pending.
  - by window_cases s.
  - destruct (requests s !! id) as [k|] eqn:Hk;
      [|unfold settle; by rewrite Hk].
    destruct r as [data|].
    + rewrite (settle_decoded id data k s Hk).
      set (s0 := set_requests (delete id (requests s)) s).
      assert (oldData (setPreviewData_then id data s0).1 = oldData s
              ∧ autoUpdate (setPreviewData_then id data s0).1 = autoUpdate s)
        as Hthen.
      { unfold setPreviewData_then, reloadIframe, updateIframeLastScroll.
        cbn. by destruct (contentWindow (iframe s)). }
      destruct k; try exact Hthen. unfold handlePreviewInNewTab_then.
      destruct (is_valid data); [destruct (URL.parse _)|]; exact Hthen.
    + unfold settle. rewrite Hk. by destruct k.
  - unfold handleLoad. destruct (loading s !! id); [|done].
    by destruct (Element.scroll _ _).
  - unfold handlePreviewModeChange. destruct (URL.parse _); [|done].
    cbn [setPreviewData oldData autoUpdate emit set_requests set_next_id
         set_hasPendingUpdate set_spinner_classList set_newTabButton_href
         set_iframe].
    by window_cases s.
Qed.

Lemma run_keeps_snapshot (events : list Event) (s : State) :
  pending_during s events = true →
  oldData (run s events) = oldData s
  ∧ autoUpdate (run s events) = autoUpdate s.
Proof.
  revert s. induction events as [|e events IH]; intros s; [done|].
  cbn [pending_during]. intros [Hp Hevents]%andb_true_iff.
  change (run s (e :: events)) with (run (step s e) events).
  destruct (IH _ Hevents) as [-> ->]. by apply step_keeps_snapshot.
Qed.

(** An idle tick sends the form exactly when its payload differs from the
    payload of the snapshot. *)
Lemma tick_idle (s : State) :
  autoUpdate s = true → hasPendingUpdate s = false →
  (payload (form s) ≠ payload (oldData s) →
   effects (tick s) = effects s ++ [Fetch (previewUrl s) (form s)]
   ∧ oldData (tick s) = form s
   ∧ hasPendingUpdate (tick s) = true)
  ∧ (payload (form s) = payload (oldData s) → effects (tick s) = effects s).
Proof.
  intros Ha Hp. unfold tick. rewrite Ha, Hp. unfold hasChanges.
  fold (payload (form s)). fold (payload (oldData s)). split; intros H.
  - rewrite bool_decide_eq_true_2 by done. done.
  - rewrite bool_decide_eq_false_2 by (intros H'; by apply H'). done.
Qed.

(** C9, as the code has it. A tick while the pending flag is up leaves the
    whole state, the stored snapshot included, as it is.  So over a whole
    pending cycle, whatever happens in it (ticks, edits, scrolling, the
    answer, the load of the new surface, mode changes, new-tab clicks), the
    snapshot is still the one stored before the cycle when the flag comes
    down, and the first tick after it sends the form exactly when the
    payload of the form, as it then is, differs from the payload of that
    snapshot.  A tick that sends the form stores that same form as the
    snapshot, so after a cycle started by a tick the form is sent again
    exactly when its payload differs from what that tick sent. *)
Theorem pending_keeps_snapshot :
  (∀ s : State, hasPendingUpdate s = true → tick s = s)
  ∧ (∀ (s : State) (cycle : list Event),
       autoUpdate s = true →
       pending_during s cycle = true →
       let s1 := run s cycle in
       hasPendingUpdate s1 = false →
       oldData s1 = oldData s
       ∧ (payload (form s1) ≠ payload (oldData s) →
          effects (tick s1) = effects s1 ++ [Fetch (previewUrl s1) (form s1)])
       ∧ (payload (form s1) = payload (oldData s) →
          effects (tick s1) = effects s1))
  ∧ (∀ (s0 : State) (cycle : list Event),
       autoUpdate s0 = true → hasPendingUpdate s0 = false →
       payload (form s0) ≠ payload (oldData s0) →
       effects (tick s0) = effects s0 ++ [Fetch (previewUrl s0) (form s0)]
       ∧ oldData (tick s0) = form s0
       ∧ hasPendingUpdate (tick s0) = true
       ∧ (pending_during (tick s0) cycle = true →
          let s1 := run (tick s0) cycle in
          hasPendingUpdate s1 = false →
          oldData s1 = form s0
          ∧ (payload (form s1) ≠ payload (form s0) →
             effects (tick s1)
             = effects s1 ++ [Fetch (previewUrl s1) (form s1)])
          ∧ (payload (form s1) = payload (form s0) →
             effects (tick s1) = effects s1))).
Proof.
  assert (∀ (s : State) (cycle : list Event),
            autoUpdate s = true → pending_during s cycle = true →
            hasPendingUpdate (run s cycle) = false →
            oldData (run s cycle) = oldData s
            ∧ (payload (form (run s cycle)) ≠ payload (oldData s) →
               effects (tick (run s cycle))
               = effects (run s cycle)
                   ++ [Fetch (previewUrl (run s cycle)) (form (run s cycle))])
            ∧ (payload (form (run s cycle)) = payload (oldData s) →
               effects (tick (run s cycle)) = effects (run s cycle)))
    as Hcycle.
  { intros s cycle Ha Hduring Hidle.
    destruct (run_keeps_snapshot cycle s Hduring) as [Hsnap Hauto].
    assert (autoUpdate (run s cycle) = true) as Ha1 by congruence.
    destruct (tick_idle _ Ha1 Hidle) as [Hsend Hskip].
    rewrite Hsnap in Hsend, Hskip.
    split; [exact Hsnap|]. split; [|exact Hskip].
    intros Hne. by destruct (Hsend Hne). }
  split; [exact tick_pending|]. split; [exact Hcycle|].
  intros s0 cycle Ha Hp Hne.
  destruct (tick_idle s0 Ha Hp) as [Hsend _].
  destruct (Hsend Hne) as (Heffects & Hold & Hpending).
  repeat (split; [done|]). intros Hduring. cbn zeta. intros Hidle.
  assert (autoUpdate (tick s0) = true) as Ha1.
  { unfold tick. rewrite Ha, Hp. unfold hasChanges.
    by destruct (bool_decide _). }
  rewrite <- Hold. by apply Hcycle.
Qed.

Lemma pending_keeps_snapshot_witness :
  let s0 := run sample_idle [Edit [("title", Text "Hello!")]] in
  let s1 := run (tick s0) [Edit [("title", Text "Hello again")]; Tick;
                           Settle 1 (Decoded valid_verdict); Load 1] in
  hasPendingUpdate s1 = false
  ∧ effects (tick s1)
    = effects s1 ++ [Fetch (previewUrl s1) [("title", Text "Hello again")]].
Proof.
  split; [vm_compute; reflexivity|].
  refine (proj1 (proj2 (proj2 (proj2 (proj2 (proj2 (proj2
    pending_keeps_snapshot)
    (run sample_idle [Edit [("title", Text "Hello!")]])
    [Edit [("title", Text "Hello again")]; Tick;
     Settle 1 (Decoded valid_verdict); Load 1]
    _ _ _))) _ _)) _); try (vm_compute; reflexivity);
    vm_compute; discriminate.
Defined.

(** The form is edited and the mode is changed before the next tick, which
    sends the edited form; while that request is pending the edit is undone.
    After the cycle the first tick sends nothing, although the form changed
    during the cycle and is no longer what the preview was made from; C9
    expects that change to be reported. *)
Lemma change_during_pending_not_reported :
  let edited := [("title", Text "Hello!"); ("doc", File "a.pdf" "AAA")] in
  let pending := run sample_idle [Edit edited; ModeChange "mobile"] in
  let s := run pending [Edit sample_form; Tick;
                        Settle 1 (Decoded valid_verdict); Load 1] in
  hasPendingUpdate pending = true
  ∧ form pending = edited
  ∧ last (effects pending) = Some (Fetch (previewUrl pending) edited)
  ∧ hasPendingUpdate s = false
  ∧ form s = sample_form
  ∧ form s ≠ form pending
  ∧ effects (step s Tick) = effects s.
Proof. vm_compute. repeat split. discriminate. Qed.

(** ** The link controller *)

Module LinkControllerFacts.
Import LinkController.

(** Lists without tuples that a filter would drop. *)
Lemma filter_all {A : Type} (P : A → Prop) `{!∀ x, Decision (P x)}
    (l : list A) :
  Forall P l → filter P l = l.
Proof.
  induction 1 as [|x l Hx Hl IH]; [done|].
  by rewrite filter_cons_True, IH.
Qed.

Lemma filter_none {A : Type} (P : A → Prop) `{!∀ x, Decision (P x)}
    (l : list A) :
  Forall (λ x, ¬ P x) l → filter P l = [].
Proof.
  induction 1 as [|x l Hx Hl IH]; [done|].
  by rewrite filter_cons_False.
Qed.

(** Deleting a preserved key drops no tuple of another kind. *)
Lemma filter_delete_preserved (preserve : list string) (key : string)
    (l : list (string * string)) :
  key ∈ preserve →
  filter (λ p, p.1 ∉ preserve) (URLSearchParams.delete key l)
  = filter (λ p, p.1 ∉ preserve) l.
Proof.
  intros Hkey. unfold URLSearchParams.delete.
  apply list_filter_filter_l. intros p Hp Heq. apply Hp. by rewrite Heq.
Qed.



Section Loop.
Import Equations.Prop.Equations.


(** The loop drops no tuple without a preserved key, and keeps their
    order. *)
Lemma forEach_delete_others (preserve : list string) (i : nat)
    (l : list (string * string)) :
  filter (λ p, p.1 ∉ preserve) (forEach_delete preserve i l)
  = filter (λ p, p.1 ∉ preserve) l.
Proof.
  funelim (forEach_delete preserve i l); [|done].
  case_bool_decide as Hkey; [|done].
  rewrite H0. by apply filter_delete_preserved.
Qed.

(** Induction along the loop. *)
Lemma forEach_delete_ind (preserve : list string)
    (P : nat → list (string * string) → list (string * string) → Prop) :
  (∀ i l, l !! i = None → P i l l) →
  (∀ i l key v,
     l !! i = Some (key, v) → key ∈ preserve →
     P (S i) (URLSearchParams.delete key l)
       (forEach_delete preserve (S i) (URLSearchParams.delete key l)) →
     P i l (forEach_delete preserve (S i) (URLSearchParams.delete key l))) →
  (∀ i l key v,
     l !! i = Some (key, v) → key ∉ preserve →
     P (S i) l (forEach_delete preserve (S i) l) →
     P i l (forEach_delete preserve (S i) l)) →
  ∀ i l, P i l (forEach_delete preserve i l).
Proof.
  intros Hstop Hdelete Hkeep i l.
  funelim (forEach_delete preserve i l); [|by apply Hstop].
  case_bool_decide; [eapply Hdelete | eapply Hkeep]; eauto;
    match goal with IH : ∀ Q, _ |- P _ _ _ => by apply IH end.
Qed.

(** With one preserved key at most among the tuples, the loop drops every
    tuple with a preserved key. *)
Lemma forEach_delete_one_key (preserve : list string) (i : nat)
    (l : list (string * string)) :
  one_preserved_key preserve l →
  Forall (λ p, p.1 ∉ preserve) (take i l) →
  forEach_delete preserve i l = filter (λ p, p.1 ∉ preserve) l.
Proof.
  revert i l. apply (forEach_delete_ind preserve (λ i l r,
    one_preserved_key preserve l →
    Forall (λ p, p.1 ∉ preserve) (take i l) →
    r = filter (λ p, p.1 ∉ preserve) l)).
  - intros i l Hi%lookup_ge_None_1 _ Htake.
    rewrite take_ge in Htake by done. symmetry. by apply filter_all.
  - intros i l key v Hi Hkey IH Hone Htake.
    rewrite <- (filter_delete_preserved preserve key l Hkey).
    assert (Forall (λ p : string * string, p.1 ∉ preserve)
              (URLSearchParams.delete key l)) as Hclean.
    { destruct Hone as [key0 Hone]. apply Forall_forall.
      intros p [Hp Hin]%list_elem_of_filter Hpres. apply Hp. cbn.
      rewrite (Hone p Hin Hpres).
      symmetry. apply (Hone (key, v)); [|done].
      by eapply list_elem_of_lookup_2. }
    apply IH.
    + exists key. intros p Hin Hpres.
      by destruct (proj1 (Forall_forall _ _) Hclean p Hin).
    + by apply Forall_take.
  - intros i l key v Hi Hkey IH Hone Htake. apply IH; [done|].
    rewrite (take_S_r l i (key, v)) by done.
    apply Forall_app. split; [done|]. by apply Forall_singleton.
Qed.



End Loop.

Lemma foldl_appendPreserved (preserve : list string)
    (params current : list (string * string)) :
  foldl (appendPreserved preserve) params current
  = params ++ filter (λ p, p.1 ∈ preserve) current.
Proof.
  revert params. induction current as [|p current IH]; intros params.
  - by rewrite app_nil_r.
  - cbn [foldl]. rewrite IH. unfold appendPreserved. rewrite filter_cons.
    case_bool_decide.
    + rewrite decide_True by done. by rewrite <- app_assoc.
    + by rewrite decide_False.
Qed.

Lemma mergedParams_app (preserve : list string)
    (given current : list (string * string)) :
  mergedParams preserve given current
  = forEach_delete preserve 0 given ++ filter (λ p, p.1 ∈ preserve) current.
Proof. apply foldl_appendPreserved. Qed.

Lemma strip_question_mark_id (text : string) :
  Urlencoded.contains "?" text = false → strip_question_mark text = text.
Proof.
  destruct text as [|c t]; [done|]. cbn.
  intros [Hc _]%orb_false_iff. by rewrite Hc.
Qed.

(** Writing the serialised parameters into [search] is [URL.update]. *)
Lemma set_search_toString (l : list (string * string)) (u : URL.t) :
  set_search (URLSearchParams.toString l) u = URL.update l u.
Proof.
  unfold set_search, URLSearchParams.toString, URL.update.
  destruct l as [|p l]; [done|].
  assert (Urlencoded.contains "?" (Urlencoded.serialize (p :: l)) = false)
    as Hq.
  { apply UrlencodedFacts.contains_serialize;
      [unfold Urlencoded.delimiter; auto | done | done]. }
  rewrite decide_False.
  - rewrite strip_question_mark_id by done.
    by rewrite UrlencodedFacts.parse_serialize.
  - intros Hempty.
    pose proof (UrlencodedFacts.parse_serialize (p :: l)) as Hparse.
    by rewrite Hempty in Hparse.
Qed.

(** The parameters read off the [search] of a URL are its [searchParams]. *)
Lemma params_of_search (u : URL.t) :
  URL.normal u → URLSearchParams_of_string (search u) = URL.searchParams u.
Proof.
  intros (_ & _ & _ & _ & ->). unfold URLSearchParams_of_string, search.
  destruct (URL.query u) as [q|]; [|done].
  destruct (decide (q = EmptyString)) as [->|]; [done|].
  cbn. done.
Qed.

(** With one preserved key at most in the given parameters, merging keeps
    the given parameters without preserved keys and the link's parameters
    with preserved keys; merging again changes nothing. *)
Lemma mergedParams_filters (preserve : list string)
    (given current : list (string * string)) :
  one_preserved_key preserve given →
  mergedParams preserve given current
  = filter (λ p, p.1 ∉ preserve) given
    ++ filter (λ p, p.1 ∈ preserve) current.
Proof.
  intros Hone. rewrite mergedParams_app. f_equal.
  by apply forEach_delete_one_key.
Qed.

Lemma mergedParams_again (preserve : list string)
    (given current : list (string * string)) :
  one_preserved_key preserve given →
  mergedParams preserve given (mergedParams preserve given current)
  = mergedParams preserve given current.
Proof.
  intros Hone. rewrite !mergedParams_filters by done. f_equal.
  rewrite filter_app.
  rewrite (filter_none (λ p, p.1 ∈ preserve) (filter _ given)).
  - cbn [app]. apply list_filter_filter_l. done.
  - apply Forall_forall. by intros p [Hp _]%list_elem_of_filter.
Qed.

Lemma setParamsFromURL_merged (newURL : string → string → option URL.t)
    (location : string) (given current : URL.t) (c : t) :
  URL.normal given → url newURL location c = Some current →
  setParamsFromURL newURL location given c
  = Some {| element :=
              <[attrNameValue c :=
                  URL.toString
                    (URL.update
                       (mergedParams (preserveKeysValue c)
                          (URL.searchParams given) (URL.searchParams current))
                       current)]> (element c);
            attrNameValue := attrNameValue c;
            preserveKeysValue := preserveKeysValue c |}.
Proof.
  intros Hgiven Hurl. unfold setParamsFromURL. rewrite Hurl.
  by rewrite set_search_toString, params_of_search.
Qed.

End LinkControllerFacts.

(** X10. [setParamsFromURL] writes into the link's attribute the link's own
    URL with a new query, and leaves the other attributes alone.  The new
    parameters are the preserved parameters of the link, after what the
    loop left of the given URL's parameters; among them the parameters
    without a preserved key are exactly those of the given URL, in their
    order, and none comes from the link.  Read as a URL again, the
    attribute has the link's path and fragment and those parameters. *)
Theorem setParamsFromURL_spec (newURL : string → string → option URL.t)
    (location : string) (given current : URL.t) (c : LinkController.t) :
  URL.normal given →
  LinkController.url newURL location c = Some current →
  let preserve := LinkController.preserveKeysValue c in
  let merged :=
    LinkController.mergedParams preserve (URL.searchParams given)
      (URL.searchParams current) in
  LinkController.setParamsFromURL newURL location given c
  = Some {| LinkController.element :=
              <[LinkController.attrNameValue c :=
                  URL.toString (URL.update merged current)]>
                (LinkController.element c);
            LinkController.attrNameValue := LinkController.attrNameValue c;
            LinkController.preserveKeysValue := preserve |}
  ∧ filter (λ p, p.1 ∉ preserve) merged
    = filter (λ p, p.1 ∉ preserve) (URL.searchParams given)
  ∧ filter (λ p, p.1 ∈ preserve) (URL.searchParams current)
    `suffix_of` merged
  ∧ (URL.normal current →
     ∃ written : URL.t,
       URL.parse (URL.toString (URL.update merged current)) = Some written
       ∧ URL.prefix written = URL.prefix current
       ∧ URL.fragment written = URL.fragment current
       ∧ URL.searchParams written = merged).
Proof.
  intros Hgiven Hurl. cbn zeta. split; [|split; [|split]].
  - by apply LinkControllerFacts.setParamsFromURL_merged.
  - rewrite LinkControllerFacts.mergedParams_app, filter_app.
    rewrite LinkControllerFacts.forEach_delete_others.
    rewrite (LinkControllerFacts.filter_none (λ p, p.1 ∉ _)
               (filter _ (URL.searchParams current))).
    + by rewrite app_nil_r.
    + apply Forall_forall. intros p [Hp _]%list_elem_of_filter. by intros H.
  - rewrite LinkControllerFacts.mergedParams_app. by eexists.
  - intros Hcurrent. eexists. split.
    + by apply URLFacts.parse_toString, URLFacts.update_normal.
    + done.
Qed.

Lemma setParamsFromURL_spec_witness :
  ∃ given c',
    URL.parse sample_location = Some given
    ∧ LinkController.setParamsFromURL absolute_URL sample_location given
        sample_link = Some c'
    ∧ LinkController.element c' !! "href"
      = Some "https://cms.example/pages/?q=tea&p=5&collapsed=1".
Proof.
  assert (is_Some (URL.parse sample_location)) as [given Hgiven]
    by (vm_compute; eauto).
  assert (is_Some (LinkController.url absolute_URL sample_location
                     sample_link)) as [current Hcurrent]
    by (vm_compute; eauto).
  destruct (setParamsFromURL_spec absolute_URL sample_location given current
              sample_link (URLFacts.parse_normal _ _ Hgiven) Hcurrent)
    as (Hset & _).
  eexists given, _. split; [done|]. split; [exact Hset|].
  vm_compute in Hgiven, Hcurrent.
  injection Hgiven as <-. injection Hcurrent as <-.
  vm_compute. reflexivity.
Defined.

(** X11. When the tuples of the given URL's parameters that have a
    preserved key all have the same key, the new parameters are the given
    URL's parameters without preserved keys followed by the link's
    parameters with preserved keys: every preserved key has exactly the
    values it had on the link. *)
Theorem mergedParams_one_key (preserve : list string)
    (given current : list (string * string)) :
  LinkController.one_preserved_key preserve given →
  LinkController.mergedParams preserve given current
  = filter (λ p, p.1 ∉ preserve) given
    ++ filter (λ p, p.1 ∈ preserve) current
  ∧ ∀ key, key ∈ preserve →
      filter (λ p, p.1 = key)
        (LinkController.mergedParams preserve given current)
      = filter (λ p, p.1 = key) current.
Proof.
  intros Hone.
  pose proof (LinkControllerFacts.mergedParams_filters preserve given current
                Hone) as Heq.
  split; [exact Heq|]. intros key Hkey. rewrite Heq, filter_app.
  rewrite (LinkControllerFacts.filter_none (λ p, p.1 = key)).
  - cbn [app]. apply list_filter_filter_l. intros p Hp. by rewrite Hp.
  - apply Forall_forall. intros p [Hp _]%list_elem_of_filter Heq'.
    apply Hp. by rewrite Heq'.
Qed.

Lemma mergedParams_one_key_witness :
  LinkController.mergedParams ["collapsed"]
    [("q", "tea"); ("collapsed", "0"); ("p", "5"); ("collapsed", "2")]
    [("collapsed", "1"); ("p", "2")]
  = [("q", "tea"); ("p", "5"); ("collapsed", "1")].
Proof.
  refine (proj1 (mergedParams_one_key ["collapsed"] _ _ _)).
  exists "collapsed". intros p _ Hp. by apply list_elem_of_singleton in Hp.
Defined.



(** X13. When the tuples of the given URL's parameters that have a
    preserved key all have the same key, and the URL just written into the
    attribute is what the [url] getter then returns, calling
    [setParamsFromURL] again with the same URL changes nothing. *)
Theorem setParamsFromURL_again (newURL : string → string → option URL.t)
    (location : string) (given current : URL.t) (c c1 : LinkController.t) :
  URL.normal given →
  LinkController.url newURL location c = Some current →
  LinkController.one_preserved_key (LinkController.preserveKeysValue c)
    (URL.searchParams given) →
  LinkController.setParamsFromURL newURL location given c = Some c1 →
  LinkController.url newURL location c1
  = Some (URL.update
            (LinkController.mergedParams (LinkController.preserveKeysValue c)
               (URL.searchParams given) (URL.searchParams current))
            current) →
  LinkController.setParamsFromURL newURL location given c1 = Some c1.
Proof.
  intros Hgiven Hurl Hone Hset Hurl1.
  rewrite (LinkControllerFacts.setParamsFromURL_merged _ _ _ _ _ Hgiven Hurl)
    in Hset.
  injection Hset as <-.
  rewrite (LinkControllerFacts.setParamsFromURL_merged _ _ _ _ _ Hgiven Hurl1).
  cbn [LinkController.element LinkController.attrNameValue
       LinkController.preserveKeysValue URL.searchParams URL.update].
  rewrite insert_insert_eq.
  by rewrite LinkControllerFacts.mergedParams_again.
Qed.

Lemma setParamsFromURL_again_witness :
  ∃ given c1,
    URL.parse sample_location = Some given
    ∧ LinkController.setParamsFromURL absolute_URL sample_location given
        sample_link = Some c1
    ∧ LinkController.setParamsFromURL absolute_URL sample_location given c1
      = Some c1.
Proof.
  assert (is_Some (URL.parse sample_location)) as [given Hgiven]
    by (vm_compute; eauto).
  assert (is_Some (LinkController.url absolute_URL sample_location
                     sample_link)) as [current Hcurrent]
    by (vm_compute; eauto).
  pose proof (LinkControllerFacts.setParamsFromURL_merged absolute_URL
                sample_location given current sample_link
                (URLFacts.parse_normal _ _ Hgiven) Hcurrent) as Hset.
  eexists given, _. split; [done|]. split; [exact Hset|].
  eapply (setParamsFromURL_again absolute_URL sample_location given current
            sample_link _ (URLFacts.parse_normal _ _ Hgiven) Hcurrent);
    [|exact Hset|].
  - exists "collapsed". intros p _ Hp. by apply list_elem_of_singleton in Hp.
  - unfold LinkController.url, absolute_URL.
    cbn [LinkController.element LinkController.attrNameValue].
    rewrite lookup_insert_eq. cbn [default from_option id].
    apply URLFacts.parse_toString, URLFacts.update_normal.
    by eapply URLFacts.parse_normal.
Defined.

(** ** More on the interval callback *)

(** What a tick can do. *)
Lemma tick_cases (s : State) :
  tick s = s
  ∨ (tick s = set_oldData (form s) s
     ∧ autoUpdate s = true ∧ hasPendingUpdate s = false)
  ∨ hasPendingUpdate (tick s) = true.
Proof.
  unfold tick. destruct (autoUpdate s); [|by left].
  destruct (hasPendingUpdate s); [by left|right].
  unfold hasChanges. destruct (negb _); [by left | by right].
Qed.

(** X1. A second tick right after a tick does nothing: whatever the first
    tick did (nothing, a new snapshot, a request), the state after two
    ticks is the state after one. *)
Theorem tick_twice (s : State) : tick (tick s) = tick s.
Proof.
  destruct (tick_cases s) as [H | [(H & Ha & Hp) | H]].
  - by rewrite !H.
  - rewrite H. unfold tick. cbn [autoUpdate hasPendingUpdate set_oldData].
    rewrite Ha, Hp. unfold hasChanges. cbn [oldData form set_oldData].
    rewrite bool_decide_eq_false_2 by (intros H'; by apply H').
    reflexivity.
  - by apply tick_pending.
Qed.

(** ** The loading indicator *)

Lemma indicator_setPreviewData (k : Continuation) (s : State) :
  indicator_matches (setPreviewData k s).
Proof.
  unfold indicator_matches, setPreviewData, classList.remove. cbn.
  rewrite elem_of_difference, elem_of_singleton. split; [|done].
  by intros [_ []].
Qed.

Lemma indicator_setPreviewData_catch (s : State) :
  indicator_matches (setPreviewData_catch s).
Proof.
  unfold indicator_matches, setPreviewData_catch, classList.add. cbn.
  rewrite elem_of_union, elem_of_singleton. split; [done|]. by left.
Qed.

Lemma indicator_step (e : Event) (s : State) :
  indicator_matches s → indicator_matches (step s e).
Proof.
  intros Hs. destruct e as [|f|w|id r|id|mode|]; cbn [step].
  - unfold tick. destruct (autoUpdate s); [|done].
    destruct (hasPendingUpdate s) eqn:Hp; [done|].
    unfold hasChanges. destruct (negb _).
    + exact Hs.
    + apply indicator_setPreviewData.
  - exact Hs.
  - by window_cases s.
  - destruct (requests s !! id) as [k|] eqn:Hk;
      [|unfold settle; by rewrite Hk].
    destruct r as [data|].
    + rewrite (settle_decoded id data k s Hk).
      set (s0 := set_requests (delete id (requests s)) s).
      assert (indicator_matches (setPreviewData_then id data s0).1) as Hthen.
      { unfold setPreviewData_then, reloadIframe. cbn [fst].
        by window_cases (set_panel_classList
          (classList.toggle "preview-panel--unavailable"
             (negb (is_available data))
             (panel_classList (set_panel_classList
                (classList.toggle "preview-panel--has-errors"
                   (negb (is_valid data)) (panel_classList s0)) s0)))
          (set_panel_classList
             (classList.toggle "preview-panel--has-errors"
                (negb (is_valid data)) (panel_classList s0)) s0)). }
      destruct k; try exact Hthen. unfold handlePreviewInNewTab_then.
      destruct (is_valid data); [destruct (URL.parse _)|]; exact Hthen.
    + unfold settle. rewrite Hk.
      set (s0 := set_requests (delete id (requests s)) s).
      pose proof (indicator_setPreviewData_catch s0) as Hcatch.
      destruct k; exact Hcatch.
  - unfold handleLoad. destruct (loading s !! id); [|done].
    destruct (Element.scroll _ _); [|done].
    unfold indicator_matches, classList.add. cbn.
    rewrite elem_of_union, elem_of_singleton. split; [done|]. by left.
  - unfold handlePreviewModeChange. destruct (URL.parse _); [|done].
    apply indicator_setPreviewData.
  - destruct opened; [apply indicator_setPreviewData | exact Hs].
Qed.

(** X2. After [initPreview], whatever happens (ticks, edits, answers,
    failures, loads, mode changes, new-tab clicks), the loading indicator is
    hidden exactly when the pending flag is down. *)
Theorem indicator_invariant (page : Page) (s0 : State) (events : list Event) :
  initPreview page = Some s0 →
  indicator_matches (run s0 events).
Proof.
  intros Hinit.
  assert (indicator_matches s0) as Hs0.
  { unfold initPreview in Hinit. destruct (previewPanel page); [|done].
    injection Hinit as <-. apply indicator_setPreviewData. }
  clear Hinit. revert s0 Hs0.
  induction events as [|e events IH]; intros s0 Hs0; [done|].
  change (run s0 (e :: events)) with (run (step s0 e) events).
  by apply IH, indicator_step.
Qed.

Lemma indicator_invariant_witness :
  indicator_matches
    (run sample_started
       [Settle 0 Failed; NewTabClick true; ModeChange "mobile"; Settle 2 Failed]).
Proof. exact (indicator_invariant sample_page _ _ initPreview_sample). Defined.

(** ** The automatic path *)

Lemma adjacent_differ_snoc (l : list string) (x : string) :
  adjacent_differ l → (∀ y, last l = Some y → y ≠ x) →
  adjacent_differ (l ++ [x]).
Proof.
  induction l as [|a [|b t] IH]; intros Hl Hlast.
  - done.
  - split; [|done]. by apply Hlast.
  - destruct Hl as [Hab Ht]. split; [done|]. apply IH; [done|].
    intros y Hy. by apply Hlast.
Qed.

Lemma sent_setPreviewData (k : Continuation) (s : State) :
  sent (setPreviewData k s) = sent s ++ [form s].
Proof. unfold sent. rewrite effects_setPreviewData. by rewrite omap_app. Qed.

Lemma automatic_tick (url : string) (s : State) :
  automatic url s → automatic url (tick s).
Proof.
  intros Hs. pose proof Hs as (Hurl & Hk & Hfetch & Hlast & Hadj).
  unfold tick. destruct (autoUpdate s); [|done].
  destruct (hasPendingUpdate s); [done|]. unfold hasChanges.
  case_bool_decide as Hchanged; cbn [negb].
  - repeat split.
    + exact Hurl.
    + intros id k. rewrite requests_setPreviewData.
      destruct (decide (next_id (set_oldData (form s) s) = id)) as [<-|Hid].
      * rewrite lookup_insert_eq. by intros [= <-].
      * rewrite lookup_insert_ne by done. apply Hk.
    + rewrite effects_setPreviewData. apply Forall_app. split; [done|].
      apply Forall_singleton. exists (form s). cbn. by rewrite Hurl.
    + rewrite sent_setPreviewData, fmap_app. cbn [fmap list_fmap].
      by rewrite last_snoc.
    + rewrite sent_setPreviewData, fmap_app. cbn [fmap list_fmap].
      apply adjacent_differ_snoc; [done|]. intros y Hy.
      change (sent (set_oldData (form s) s)) with (sent s) in Hy.
      rewrite Hlast in Hy. by injection Hy as <-.
  - repeat split; try done.
    change (sent (set_oldData (form s) s)) with (sent s).
    rewrite Hlast. cbn. f_equal.
    by destruct (decide (payload (oldData s) = payload (form s))).
Qed.

Lemma automatic_step (url : string) (e : Event) (s : State) :
  poll_event e = true → automatic url s → automatic url (step s e).
Proof.
  intros He Hs. pose proof Hs as (Hurl & Hk & Hfetch & Hlast & Hadj).
  destruct e as [|f|w|id r|id|mode|]; cbn [step]; try done.
  - by apply automatic_tick.
  - by window_cases s.
  - destruct (requests s !! id) as [k|] eqn:Hid;
      [|unfold settle; by rewrite Hid].
    assert (∀ id' k', delete id (requests s) !! id' = Some k' → k' = Ignored)
      as Hk'.
    { intros id' k' [_ H]%lookup_delete_Some. by eapply Hk. }
    rewrite (Hk id k Hid) in Hid. destruct r as [data|].
    + rewrite (settle_decoded id data Ignored s Hid).
      unfold setPreviewData_then, reloadIframe. cbn [fst].
      by window_cases (set_panel_classList
          (classList.toggle "preview-panel--unavailable"
             (negb (is_available data))
             (panel_classList (set_panel_classList
                (classList.toggle "preview-panel--has-errors"
                   (negb (is_valid data))
                   (panel_classList
                      (set_requests (delete id (requests s)) s)))
                (set_requests (delete id (requests s)) s))))
          (set_panel_classList
             (classList.toggle "preview-panel--has-errors"
                (negb (is_valid data))
                (panel_classList (set_requests (delete id (requests s)) s)))
             (set_requests (delete id (requests s)) s))).
    + unfold settle. rewrite Hid. done.
  - unfold handleLoad. destruct (loading s !! id); [|done].
    by destruct (Element.scroll _ _).
Qed.

Lemma automatic_run (url : string) (events : list Event) (s : State) :
  forallb poll_event events = true → automatic url s →
  automatic url (run s events).
Proof.
  revert s. induction events as [|e events IH]; intros s; [done|].
  cbn [forallb]. intros [He Hevents]%andb_true_iff Hs.
  change (run s (e :: events)) with (run (step s e) events).
  by apply IH, automatic_step.
Qed.

Lemma automatic_initPreview (page : Page) (panel : Panel) (s : State) :
  previewPanel page = Some panel → initPreview page = Some s →
  automatic (dataset_action panel) s.
Proof.
  unfold initPreview. intros ->. intros [= <-]. repeat split.
  - intros id k. rewrite requests_setPreviewData.
    cbn [next_id requests].
    destruct (decide (0 = id)) as [<-|Hid].
    + rewrite lookup_insert_eq. by intros [= <-].
    + by rewrite lookup_insert_ne, lookup_empty.
  - apply Forall_singleton. by eexists.
Qed.

(** X3. Along the automatic path (after [initPreview]: ticks, edits,
    scrolling, answers, failures, loads) the only calls that leave the
    page are requests to the panel's [data-action] URL: no alert is ever
    shown, whatever fails, and no window is opened, focused or closed. *)
Theorem automatic_effects (page : Page) (panel : Panel) (s0 : State)
    (events : list Event) :
  previewPanel page = Some panel →
  initPreview page = Some s0 →
  forallb poll_event events = true →
  Forall (λ e, ∃ body, e = Fetch (dataset_action panel) body)
         (effects (run s0 events))
  ∧ alerts (run s0 events) = 0.
Proof.
  intros Hpanel Hinit Hevents.
  destruct (automatic_run _ events s0 Hevents
              (automatic_initPreview page panel s0 Hpanel Hinit))
    as (_ & _ & Hfetch & _).
  split; [exact Hfetch|]. unfold alerts.
  induction Hfetch as [|e l [body ->] _ IH]; [done|]. exact IH.
Qed.

Lemma automatic_effects_witness :
  alerts (run sample_started
            [Settle 0 Failed; Edit [("title", Text "Hello!")]; Tick;
             Settle 1 Failed]) = 0.
Proof.
  exact (proj2 (automatic_effects sample_page _ sample_started
                  [Settle 0 Failed; Edit [("title", Text "Hello!")]; Tick;
                   Settle 1 Failed]
                  eq_refl initPreview_sample eq_refl)).
Defined.

(** X4. Along the automatic path no two requests in a row carry the same
    payload: the interval only sends a form whose payload differs from the
    payload sent last. *)
Theorem automatic_payloads_differ (page : Page) (s0 : State)
    (events : list Event) :
  initPreview page = Some s0 →
  forallb poll_event events = true →
  adjacent_differ (payload <$> sent (run s0 events))
  ∧ last (payload <$> sent (run s0 events))
    = Some (payload (oldData (run s0 events))).
Proof.
  intros Hinit Hevents.
  destruct (previewPanel page) as [panel|] eqn:Hpanel;
    [|unfold initPreview in Hinit; by rewrite Hpanel in Hinit].
  destruct (automatic_run _ events s0 Hevents
              (automatic_initPreview page panel s0 Hpanel Hinit))
    as (_ & _ & _ & Hlast & Hadj).
  by split.
Qed.

Lemma automatic_payloads_differ_witness :
  adjacent_differ
    (payload <$> sent (run sample_started
       [Settle 0 (Decoded valid_verdict); Load 0;
        Edit [("title", Text "Hello!")]; Tick; Tick;
        Settle 1 Failed; Tick])).
Proof.
  exact (proj1 (automatic_payloads_differ sample_page sample_started
                  [Settle 0 (Decoded valid_verdict); Load 0;
                   Edit [("title", Text "Hello!")]; Tick; Tick;
                   Settle 1 Failed; Tick]
                  initPreview_sample eq_refl)).
Defined.

(** ** The source of the surface *)

Lemma src_handleLoad (s : State) (id : nat) (newIframe : Iframe) :
  loading s !! id = Some newIframe →
  is_Some (contentWindow newIframe) →
  Element.src (iframe (handleLoad id s)) = Element.src newIframe.
Proof.
  intros Hl [w Hw]. rewrite (handleLoad_swapped s id newIframe w Hl Hw).
  cbn [iframe set_loading set_hasPendingUpdate set_spinner_classList
       set_iframe].
  unfold Element.src, Element.getAttribute, Element.clear_style,
    Element.setAttribute. cbn [attributes].
  rewrite lookup_insert_ne by done. by rewrite copyAttributes_src.
Qed.

Lemma iframe_updateIframeLastScroll (s : State) :
  iframe (updateIframeLastScroll s) = iframe s.
Proof. by window_cases s. Qed.

Lemma same_source_step (src : string) (e : Event) (s : State) :
  not_mode_change e = true → same_source src s →
  same_source src (step s e) ∧ newTabButton_href (step s e) = newTabButton_href s.
Proof.
  intros He Hs. pose proof Hs as [Hsrc Hloading].
  destruct e as [|f|w|id r|id|mode|[|]]; cbn [step]; try done.
  - unfold tick. destruct (autoUpdate s); [|done].
    destruct (hasPendingUpdate s); [done|]. unfold hasChanges.
    by destruct (negb _).
  - by window_cases s.
  - destruct (requests s !! id) as [k|] eqn:Hk;
      [|unfold settle; by rewrite Hk].
    destruct r as [data|].
    + rewrite (settle_decoded id data k s Hk).
      set (s0 := set_requests (delete id (requests s)) s).
      destruct (setPreviewData_then_frame id data s0)
        as (_ & Hl & Hif & _).
      assert (same_source src (setPreviewData_then id data s0).1
              ∧ newTabButton_href (setPreviewData_then id data s0).1
                = newTabButton_href s) as Hthen.
      { split; [split|].
        - by rewrite Hif.
        - intros id' f. unfold setPreviewData_then, reloadIframe. cbn [fst].
          cbn [loading set_loading].
          destruct (decide (id = id')) as [<-|Hid].
          + rewrite lookup_insert_eq. intros [= <-].
            rewrite iframe_updateIframeLastScroll. cbn [iframe set_panel_classList].
            unfold Element.src at 1, Element.getAttribute. cbn [attributes].
            rewrite lookup_insert_eq. exact Hsrc.
          + rewrite lookup_insert_ne by done.
            assert (∀ x, loading (updateIframeLastScroll x) = loading x)
              as -> by (intros x; by window_cases x).
            apply Hloading.
        - unfold setPreviewData_then, reloadIframe. cbn [fst].
          cbn [newTabButton_href set_loading].
          by rewrite href_updateIframeLastScroll. }
      destruct k; try exact Hthen. unfold handlePreviewInNewTab_then.
      destruct (is_valid data); [destruct (URL.parse _)|]; exact Hthen.
    + unfold settle. rewrite Hk. by destruct k.
  - unfold handleLoad. destruct (loading s !! id) as [f|] eqn:Hl; [|done].
    destruct (Element.scroll _ _) as [scrolled|] eqn:Hscroll.
    + assert (is_Some (contentWindow f)) as Hw.
      { unfold Element.scroll in Hscroll.
        rewrite copyAttributes_window in Hscroll.
        destruct (contentWindow f); [by eexists | done]. }
      pose proof (src_handleLoad s id f Hl Hw) as Hnew.
      unfold handleLoad in Hnew. rewrite Hl, Hscroll in Hnew.
      split; [split|done].
      * rewrite Hnew. by eapply Hloading.
      * intros id' f'. cbn [loading set_loading set_hasPendingUpdate
                           set_spinner_classList set_iframe].
        intros [_ H]%lookup_delete_Some. by eapply Hloading.
    + split; [split|done]; [done|]. intros id' f'. cbn [loading set_loading].
      destruct (decide (id = id')) as [<-|Hid].
      * rewrite lookup_insert_eq. intros [= <-].
        unfold Element.src, Element.getAttribute.
        rewrite copyAttributes_src. by apply (Hloading id f).
      * rewrite lookup_insert_ne by done. apply Hloading.
Qed.

(** X5. After [initPreview], as long as the mode is not changed, the source
    of the displayed surface and the target of the new-tab button stay what
    they were in the page, through every request, failure, swap and
    new-tab click. *)
Theorem source_unchanged (page : Page) (panel : Panel) (s0 : State)
    (events : list Event) :
  previewPanel page = Some panel →
  initPreview page = Some s0 →
  forallb not_mode_change events = true →
  Element.src (iframe (run s0 events)) = Element.src (preview_iframe panel)
  ∧ newTabButton_href (run s0 events) = newTab_href panel.
Proof.
  intros Hpanel Hinit Hevents.
  assert (same_source (Element.src (preview_iframe panel)) s0
          ∧ newTabButton_href s0 = newTab_href panel) as Hs0.
  { unfold initPreview in Hinit. rewrite Hpanel in Hinit.
    injection Hinit as <-. by split; [split|]. }
  clear Hinit. revert s0 Hs0.
  induction events as [|e events IH]; intros s0 [Hsame Hhref].
  - split; [apply Hsame | exact Hhref].
  - cbn [forallb] in Hevents. apply andb_true_iff in Hevents as [He Hevents].
    change (run s0 (e :: events)) with (run (step s0 e) events).
    destruct (same_source_step _ e s0 He Hsame) as [Hsame' Hhref'].
    apply IH; [done|]. split; [done | congruence].
Qed.

Lemma source_unchanged_witness :
  Element.src (iframe (run sample_started
     [Settle 0 (Decoded invalid_verdict); NewTabClick true; Load 0;
      Settle 1 Failed]))
  = "https://cms.example/preview/?mode=desktop&in_preview_panel=true".
Proof.
  exact (proj1 (source_unchanged sample_page _ sample_started
                  [Settle 0 (Decoded invalid_verdict); NewTabClick true; Load 0;
                   Settle 1 Failed]
                  eq_refl initPreview_sample eq_refl)).
Defined.

(** ** Mode changes *)

Lemma set_set (name v1 v2 : string) (l : list (string * string)) :
  URLSearchParams.set name v2 (URLSearchParams.set name v1 l)
  = URLSearchParams.set name v2 l.
Proof.
  induction l as [|[k v] l IH]; cbn [URLSearchParams.set].
  - by rewrite decide_True.
  - destruct (decide (k = name)) as [->|Hk]; cbn [URLSearchParams.set].
    + rewrite decide_True by done. f_equal. unfold URLSearchParams.delete.
      apply list_filter_filter_l. done.
    + rewrite decide_False by done. by rewrite IH.
Qed.

(** What a mode change writes, and what it leaves alone. *)
Lemma handlePreviewModeChange_urls (mode : string) (s : State) (url : URL.t) :
  URL.parse (Element.src (iframe s)) = Some url →
  let url1 := URL.searchParams_set "mode" mode url in
  Element.src (iframe (handlePreviewModeChange mode s)) = URL.toString url1
  ∧ newTabButton_href (handlePreviewModeChange mode s)
    = URL.toString (URL.searchParams_delete "in_preview_panel" url1)
  ∧ loading (handlePreviewModeChange mode s) = loading s
  ∧ URL.parse (URL.toString url1) = Some url1.
Proof.
  intros Hurl. cbn zeta. unfold handlePreviewModeChange. rewrite Hurl.
  cbn [iframe newTabButton_href loading setPreviewData set_next_id
       set_requests emit set_spinner_classList set_hasPendingUpdate
       set_newTabButton_href set_iframe].
  rewrite src_set_src. repeat split.
  - by window_cases s.
  - by apply URLFacts.parse_toString, URLFacts.update_normal,
      (URLFacts.parse_normal _ _ Hurl).
Qed.

(** X6. A new surface that was created before a mode change still carries
    the source of before the change.  When it loads after the change it
    replaces the displayed surface all the same: the displayed source is
    again the one of before the mode change, while the new-tab target keeps
    the new mode. *)
Theorem swap_after_mode_change (s : State) (id : nat) (newIframe : Iframe)
    (w : Window) (mode : string) (url : URL.t) :
  loading s !! id = Some newIframe →
  contentWindow newIframe = Some w →
  Element.src newIframe = Element.src (iframe s) →
  URL.parse (Element.src (iframe s)) = Some url →
  let changed := handlePreviewModeChange mode s in
  Element.src (iframe changed)
  = URL.toString (URL.searchParams_set "mode" mode url)
  ∧ Element.src (iframe (handleLoad id changed)) = Element.src (iframe s)
  ∧ newTabButton_href (handleLoad id changed)
    = URL.toString
        (URL.searchParams_delete "in_preview_panel"
           (URL.searchParams_set "mode" mode url)).
Proof.
  intros Hl Hw Hsrc Hurl. cbn zeta.
  destruct (handlePreviewModeChange_urls mode s url Hurl)
    as (Hsrc' & Hhref & Hloading & _).
  split; [exact Hsrc'|].
  assert (loading (handlePreviewModeChange mode s) !! id = Some newIframe)
    as Hl' by by rewrite Hloading.
  split.
  - rewrite (src_handleLoad _ id newIframe Hl') by by eexists. exact Hsrc.
  - by rewrite (handleLoad_swapped _ id newIframe w Hl' Hw).
Qed.

Lemma swap_after_mode_change_witness :
  let s := run sample_started [Settle 0 (Decoded valid_verdict)] in
  Element.src (iframe (handleLoad 0 (handlePreviewModeChange "mobile" s)))
  = Element.src (iframe s).
Proof.
  assert (is_Some (loading (run sample_started
                              [Settle 0 (Decoded valid_verdict)]) !! 0))
    as [f Hf] by (vm_compute; eauto).
  assert (is_Some (URL.parse (Element.src (iframe (run sample_started
                     [Settle 0 (Decoded valid_verdict)])))))
    as [url Hurl] by (vm_compute; eauto).
  refine (proj1 (proj2 (swap_after_mode_change _ 0 f
                          {| scrollX := 0; scrollY := 0 |} "mobile" url
                          Hf _ _ Hurl)));
    vm_compute in Hf; injection Hf as <-; vm_compute; reflexivity.
Defined.

(** X7. Of two mode changes in a row only the second counts: the source
    of the surface and the new-tab target are what the second change alone
    would have made them.  In particular, changing to the same mode twice
    leaves both as after the first change. *)
Theorem last_mode_wins (s : State) (m1 m2 : string) (url : URL.t) :
  URL.parse (Element.src (iframe s)) = Some url →
  let twice := handlePreviewModeChange m2 (handlePreviewModeChange m1 s) in
  let once := handlePreviewModeChange m2 s in
  Element.src (iframe twice) = Element.src (iframe once)
  ∧ newTabButton_href twice = newTabButton_href once.
Proof.
  intros Hurl. cbn zeta.
  destruct (handlePreviewModeChange_urls m1 s url Hurl)
    as (Hsrc1 & _ & _ & Hparse1).
  rewrite <- Hsrc1 in Hparse1.
  destruct (handlePreviewModeChange_urls m2 _ _ Hparse1)
    as (Hsrc2 & Hhref2 & _).
  destruct (handlePreviewModeChange_urls m2 s url Hurl)
    as (Hsrc & Hhref & _).
  rewrite Hsrc2, Hhref2, Hsrc, Hhref.
  unfold URL.searchParams_set at 1 2 4 5, URL.update at 1 2 4 5.
  cbn [URL.searchParams]. rewrite set_set. done.
Qed.

Lemma last_mode_wins_witness :
  Element.src (iframe (handlePreviewModeChange "mobile"
                         (handlePreviewModeChange "tablet" sample_idle)))
  = Element.src (iframe (handlePreviewModeChange "mobile" sample_idle)).
Proof.
  assert (is_Some (URL.parse (Element.src (iframe sample_idle))))
    as [url Hurl] by (vm_compute; eauto).
  exact (proj1 (last_mode_wins sample_idle "tablet" "mobile" url Hurl)).
Defined.

(** ** Preview size handling *)

Module PreviewSizeFacts.
Import PreviewSize.

Lemma device_class_inj (a b : string) :
  device_class a = device_class b → a = b.
Proof. unfold device_class. apply (inj (String.app _)). Qed.

(** The classes after the loop over the size inputs. *)
Lemma foldl_toggleDevice (device : string) (inputs : list Input)
    (classes : gset string) :
  (∀ input, input ∈ inputs →
     device_class (value input) ∈ foldl (toggleDevice device) classes inputs
     ↔ value input = device)
  ∧ (∀ cls, (∀ input, input ∈ inputs → cls ≠ device_class (value input)) →
       cls ∈ foldl (toggleDevice device) classes inputs ↔ cls ∈ classes).
Proof.
  induction inputs as [|x inputs [IH1 IH2]] using rev_ind.
  - split; [by intros input ?%elem_of_nil | done].
  - rewrite foldl_app. cbn [foldl]. unfold toggleDevice at 1 3. split.
    + intros input Hin. rewrite toggle_elem.
      destruct (decide (device_class (value input) = device_class (value x)))
        as [Heq%device_class_inj|Hne].
      * rewrite Heq. apply bool_decide_eq_true.
      * apply elem_of_app in Hin as [Hin|Hin%list_elem_of_singleton];
          [by apply IH1 | by subst].
    + intros cls Hcls. rewrite toggle_elem.
      rewrite decide_False
        by (apply Hcls, elem_of_app; right; by apply list_elem_of_singleton).
      apply IH2. intros input Hin. apply Hcls, elem_of_app. by left.
Qed.

End PreviewSizeFacts.

(** X8. After [togglePreviewSize] for the size input [target], the panel
    has, among the device classes of the size inputs, exactly the class of
    the inputs with the target's value; every class that is not the device
    class of a size input is as before, and nothing else of the panel
    state changes. *)
Theorem togglePreviewSize_classes (c : PreviewSize.Controls)
    (target : PreviewSize.Input) (s s' : State)
    (call : PreviewSize.SetProperty) :
  PreviewSize.togglePreviewSize c target s = Some (s', call) →
  (∀ input, input ∈ PreviewSize.sizeInputs c →
     PreviewSize.device_class (PreviewSize.value input) ∈ panel_classList s'
     ↔ PreviewSize.value input = PreviewSize.value target)
  ∧ (∀ cls,
       (∀ input, input ∈ PreviewSize.sizeInputs c →
          cls ≠ PreviewSize.device_class (PreviewSize.value input)) →
       cls ∈ panel_classList s' ↔ cls ∈ panel_classList s)
  ∧ s' = set_panel_classList (panel_classList s') s.
Proof.
  unfold PreviewSize.togglePreviewSize.
  destruct (PreviewSize.setPreviewWidth _ _ _); [|done]. intros [= <- _].
  cbn [panel_classList set_panel_classList].
  destruct (PreviewSizeFacts.foldl_toggleDevice (PreviewSize.value target)
              (PreviewSize.sizeInputs c) (panel_classList s)) as [H1 H2].
  by repeat split; [apply H1 | apply H1 | apply H2 | apply H2].
Qed.

Lemma togglePreviewSize_classes_witness :
  ∃ s' call,
    PreviewSize.togglePreviewSize sample_controls
      {| PreviewSize.value := "tablet";
         PreviewSize.deviceWidth := Some "768" |} sample_idle
    = Some (s', call)
    ∧ "preview-panel--tablet" ∈ panel_classList s'
    ∧ "preview-panel--mobile" ∉ panel_classList s'.
Proof.
  assert (is_Some (PreviewSize.togglePreviewSize sample_controls
      {| PreviewSize.value := "tablet";
         PreviewSize.deviceWidth := Some "768" |} sample_idle))
    as [[s' call] Hs'] by (vm_compute; eauto).
  destruct (togglePreviewSize_classes _ _ _ _ _ Hs') as (H & _).
  exists s', call. split; [done|]. split.
  - apply (H {| PreviewSize.value := "tablet";
                PreviewSize.deviceWidth := Some "768" |}); [|done].
    cbn. right. by left.
  - intros Hin.
    apply (H {| PreviewSize.value := "mobile";
                PreviewSize.deviceWidth := Some "375" |}) in Hin; [done|].
    cbn. by left.
Defined.

Lemma unavailable_after_settle (s : State) (id : nat) (k : Continuation)
    (data : Verdict) :
  requests s !! id = Some k →
  "preview-panel--unavailable" ∈ panel_classList (settle id (Decoded data) s)
  ↔ is_available data = false.
Proof.
  intros Hk. rewrite (settle_decoded id data k s Hk).
  set (s0 := set_requests (delete id (requests s)) s).
  destruct (setPreviewData_then_spec id data s0) as (_ & Hun & _).
  destruct k; try exact Hun.
  by destruct (handlePreviewInNewTab_then_frame (Some (is_valid data))
                 (setPreviewData_then id data s0).1)
    as (_ & _ & _ & _ & _ & _ & ->).
Qed.

(** X9. The width [togglePreviewSize] sets follows the last verdict.  After
    a verdict that the preview is unavailable it sets the width of the
    default size input, whichever input was chosen, and throws without
    changing any class when there is no default size input.  After a
    verdict that the preview is available it sets the width of the chosen
    input, when that input has one. *)
Theorem togglePreviewSize_width (s : State) (id : nat) (k : Continuation)
    (data : Verdict) (c : PreviewSize.Controls) (target : PreviewSize.Input) :
  requests s !! id = Some k →
  let s1 := settle id (Decoded data) s in
  (is_available data = false →
   match PreviewSize.defaultSizeInput c with
   | Some d =>
       ∃ s2, PreviewSize.togglePreviewSize c target s1
             = Some (s2, {| PreviewSize.property := "--preview-device-width";
                            PreviewSize.property_value :=
                              PreviewSize.deviceWidth d |})
   | None => PreviewSize.togglePreviewSize c target s1 = None
   end)
  ∧ (is_available data = true →
     PreviewSize.falsy (PreviewSize.deviceWidth target) = false →
     ∃ s2, PreviewSize.togglePreviewSize c target s1
           = Some (s2, {| PreviewSize.property := "--preview-device-width";
                          PreviewSize.property_value :=
                            PreviewSize.deviceWidth target |})).
Proof.
  intros Hk. cbn zeta.
  pose proof (unavailable_after_settle s id k data Hk) as Hun.
  unfold PreviewSize.togglePreviewSize, PreviewSize.setPreviewWidth.
  split.
  - intros Hdata. rewrite (bool_decide_eq_true_2 _ (proj2 Hun Hdata)).
    rewrite orb_true_r. destruct (PreviewSize.defaultSizeInput c); [|done].
    by eexists.
  - intros Hdata Hwidth. rewrite Hwidth. rewrite bool_decide_eq_false_2.
    + by eexists.
    + intros Hin%Hun. congruence.
Qed.

Lemma togglePreviewSize_width_witness :
  ∃ s2, PreviewSize.togglePreviewSize sample_controls
          {| PreviewSize.value := "mobile";
             PreviewSize.deviceWidth := Some "375" |}
          (settle 0 (Decoded {| is_valid := true; is_available := false |})
             sample_started)
        = Some (s2, {| PreviewSize.property := "--preview-device-width";
                       PreviewSize.property_value := Some "1280" |}).
Proof.
  refine (proj1 (togglePreviewSize_width sample_started 0 Ignored
                   {| is_valid := true; is_available := false |}
                   sample_controls _ _) _); [|done].
  vm_compute. reflexivity.
Defined.

(** ** The entry points of the link controller *)

(** X14. A swap request without a [requestUrl], or with an empty one,
    leaves the link as it is.  With a [requestUrl] that resolves to a URL,
    and on [connect] with the page's location, the link's attribute gets the
    link's own URL with the merged parameters, whose parameters without a
    preserved key are those of the request, respectively of the location. *)
Theorem link_entry_points (newURL : string → string → option URL.t)
    (location : string) (c : LinkController.t) (current : URL.t) :
  LinkController.url newURL location c = Some current →
  let preserve := LinkController.preserveKeysValue c in
  let written given :=
    {| LinkController.element :=
         <[LinkController.attrNameValue c :=
             URL.toString
               (URL.update
                  (LinkController.mergedParams preserve
                     (URL.searchParams given) (URL.searchParams current))
                  current)]> (LinkController.element c);
       LinkController.attrNameValue := LinkController.attrNameValue c;
       LinkController.preserveKeysValue := preserve |} in
  LinkController.setParamsFromSwapRequest newURL location None c = Some c
  ∧ LinkController.setParamsFromSwapRequest newURL location
      (Some EmptyString) c = Some c
  ∧ (∀ text given,
       text ≠ EmptyString → newURL text location = Some given →
       URL.normal given →
       LinkController.setParamsFromSwapRequest newURL location (Some text) c
       = Some (written given))
  ∧ (∀ given,
       URL.parse location = Some given →
       LinkController.setParamsFromLocation newURL location c
       = Some (written given)).
Proof.
  intros Hurl. cbn zeta. split; [done|]. split; [done|]. split.
  - intros text given Htext Hgiven Hnormal.
    unfold LinkController.setParamsFromSwapRequest.
    rewrite decide_False by done. rewrite Hgiven.
    by apply LinkControllerFacts.setParamsFromURL_merged.
  - intros given Hgiven. unfold LinkController.setParamsFromLocation.
    rewrite Hgiven. apply LinkControllerFacts.setParamsFromURL_merged; [|done].
    by eapply URLFacts.parse_normal.
Qed.

Lemma link_entry_points_witness :
  ∃ c',
    LinkController.setParamsFromLocation absolute_URL sample_location
      sample_link = Some c'
    ∧ LinkController.element c' !! "href"
      = Some "https://cms.example/pages/?q=tea&p=5&collapsed=1".
Proof.
  assert (is_Some (URL.parse sample_location)) as [given Hgiven]
    by (vm_compute; eauto).
  assert (is_Some (LinkController.url absolute_URL sample_location
                     sample_link)) as [current Hcurrent]
    by (vm_compute; eauto).
  destruct (link_entry_points absolute_URL sample_location sample_link
              current Hcurrent) as (_ & _ & _ & H).
  eexists. split; [exact (H given Hgiven)|].
  vm_compute in Hgiven, Hcurrent.
  injection Hgiven as <-. injection Hcurrent as <-.
  vm_compute. reflexivity.
Defined.
